(** * Weekly scorecard: sanitizer, week ordering, scoring rules, streak flags

    A shallow embedding of the derivation engine of [src/App.tsx]
    ([scoreRules], [sortEntries], [toNumericValue], [toBooleanValue],
    [parseStoredEntries], [loadEntries], [computeDerivedWeeks] and the
    collection handlers of the [App] component), followed by the properties
    the specification states about it.

    Conventions of the embedding.
    - A JavaScript string is the list of its UTF-16 code units.
    - A JavaScript number is either a finite value, held as a rational
      (every finite double is one; the two zeros are identified, as [===]
      and the comparisons do), or one of [Infinity], [-Infinity], [NaN].
    - An [unknown] value is a value [JSON.parse] can produce, or [undefined].
    - The platform functions [String.prototype.localeCompare] and [Number]
      (string to number conversion) are not part of the repository; they are
      variables of the development.  [Array.prototype.sort] is the stable
      sort ECMA-262 prescribes for a consistent comparator.
    - A [Date] is its time value; its parsing from a string and
      [toISOString] are variables too, and local time is at a constant
      offset from UTC. *)

From Stdlib Require Import List ZArith NArith QArith Bool Lia.
From Stdlib Require Import Permutation Sorted String Ascii DecimalNat.
Import ListNotations.

Set Warnings "-register-all".

Local Open Scope nat_scope.

(* ------------------------------------------------------------------ *)
(** ** Strings *)

Definition jsstring := list N.

(** The code units of an ASCII literal. *)
Definition lit (s : string) : jsstring :=
  map N_of_ascii (list_ascii_of_string s).

Fixpoint str_eqb (a b : jsstring) : bool :=
  match a, b with
  | [], [] => true
  | x :: a', y :: b' => N.eqb x y && str_eqb a' b'
  | _, _ => false
  end.

(** ECMA-262 [WhiteSpace] and [LineTerminator] code points, the ones
    [String.prototype.trim] strips. *)
Definition isWhiteSpace (c : N) : bool :=
  ((9 <=? c) && (c <=? 13) || (c =? 32) || (c =? 160) || (c =? 5760)
   || (8192 <=? c) && (c <=? 8202) || (c =? 8232) || (c =? 8233)
   || (c =? 8239) || (c =? 8287) || (c =? 12288) || (c =? 65279))%N.

Fixpoint trimStart (s : jsstring) : jsstring :=
  match s with
  | c :: s' => if isWhiteSpace c then trimStart s' else s
  | [] => []
  end.

Definition trimEnd (s : jsstring) : jsstring := rev (trimStart (rev s)).

Definition trim (s : jsstring) : jsstring := trimEnd (trimStart s).

(** [String.prototype.toLowerCase] on the ASCII letters.  Code units
    outside [A-Z] are left as they are: no other character lower-cases to a
    letter of the words the result is compared with. *)
Definition lowerUnit (c : N) : N :=
  if ((65 <=? c) && (c <=? 90))%N then (c + 32)%N else c.

Definition toLowerCase (s : jsstring) : jsstring := map lowerUnit s.

(** Code-unit lexicographic comparison, the order of [<] on strings. *)
Fixpoint codeUnitCompare (a b : jsstring) : comparison :=
  match a, b with
  | [], [] => Eq
  | [], _ :: _ => Lt
  | _ :: _, [] => Gt
  | x :: a', y :: b' =>
      match N.compare x y with
      | Eq => codeUnitCompare a' b'
      | c => c
      end
  end.

(** A collation obtained by weighting code units: strings are compared by
    the weights of their units. *)
Definition collateBy (weight : N -> N) (a b : jsstring) : comparison :=
  codeUnitCompare (map weight a) (map weight b).

(** Alphabetic weights: a letter sorts by its place in the alphabet, lower
    case before upper case ([a < A < b < B < ...]); other code units sort
    after the letters, in code-unit order.  The collations [localeCompare]
    uses have several levels and are not weight collations, but they order
    one-letter strings this way (["a".localeCompare("B")] is negative), and
    strings of digits and hyphens of one shape, such as ISO dates, in
    code-unit order, as this one does. *)
Definition alphabeticWeight (c : N) : N :=
  if ((97 <=? c) && (c <=? 122))%N then (2 * (c - 97))%N
  else if ((65 <=? c) && (c <=? 90))%N then (2 * (c - 65) + 1)%N
  else (c + 52)%N.

Definition alphabeticCompare : jsstring -> jsstring -> comparison :=
  collateBy alphabeticWeight.

(* ------------------------------------------------------------------ *)
(** ** Numbers *)

Inductive number : Type :=
| Finite (q : Q)
| PosInfinity
| NegInfinity
| NaN.

(** [Number.isFinite] on a number. *)
Definition isFinite (v : number) : bool :=
  match v with Finite _ => true | _ => false end.

(** [v >= c] for a finite constant [c]. *)
Definition geq (v : number) (c : Q) : bool :=
  match v with
  | Finite q => Qle_bool c q
  | PosInfinity => true
  | NegInfinity | NaN => false
  end.

(** [v <= c] for a finite constant [c]. *)
Definition leq (v : number) (c : Q) : bool :=
  match v with
  | Finite q => Qle_bool q c
  | NegInfinity => true
  | PosInfinity | NaN => false
  end.

(** [v === c] for a finite constant [c]. *)
Definition strictEq (v : number) (c : Q) : bool :=
  match v with
  | Finite q => Qeq_bool q c
  | _ => false
  end.

(** [v <= v'] on numbers: [NaN] compares with nothing. *)
Definition numLe (v v' : number) : Prop :=
  match v, v' with
  | NaN, _ | _, NaN => False
  | NegInfinity, _ | _, PosInfinity => True
  | Finite q, Finite q' => (q <= q')%Q
  | _, _ => False
  end.

(** A decimal digit string read as a number; [NaN] on anything else.  One
    instance of the string-to-number conversion, used where a concrete
    platform is needed. *)
Fixpoint digitsValue (acc : Z) (s : jsstring) : option Z :=
  match s with
  | [] => Some acc
  | c :: s' =>
      if ((48 <=? c) && (c <=? 57))%N
      then digitsValue (10 * acc + Z.of_N (c - 48)) s'
      else None
  end.

Definition decimalNumber (s : jsstring) : number :=
  match s with
  | [] => Finite 0
  | _ => match digitsValue 0 s with
         | Some z => Finite (inject_Z z)
         | None => NaN
         end
  end.

(* ------------------------------------------------------------------ *)
(** ** Untyped values and JSON documents *)

Inductive value : Type :=
| VUndefined
| VNull
| VBool (b : bool)
| VNumber (n : number)
| VString (s : jsstring)
| VArray (items : list value)
| VObject (props : list (jsstring * value)).

Fixpoint lookup {A : Type} (k : jsstring) (props : list (jsstring * A))
  : option A :=
  match props with
  | [] => None
  | (k', v) :: rest => if str_eqb k k' then Some v else lookup k rest
  end.

(** Property read [item.key] on a non-nullish value.  Only plain objects
    carry the properties read by the sanitizer. *)
Definition getProp (item : value) (k : jsstring) : value :=
  match item with
  | VObject props =>
      match lookup k props with Some v => v | None => VUndefined end
  | _ => VUndefined
  end.

(** [Boolean(value)]. *)
Definition Boolean (v : value) : bool :=
  match v with
  | VUndefined | VNull => false
  | VBool b => b
  | VNumber (Finite q) => negb (Qeq_bool q 0)
  | VNumber NaN => false
  | VNumber _ => true
  | VString s => match s with [] => false | _ => true end
  | VArray _ | VObject _ => true
  end.

(** The tree of a JSON text.  Numbers of a document written by
    [JSON.stringify] are finite. *)
Inductive json : Type :=
| JNull
| JBool (b : bool)
| JNumber (q : Q)
| JString (s : jsstring)
| JArray (items : list json)
| JObject (members : list (jsstring * json)).

(** The members written for the properties of an object: a property whose
    value has no JSON form is left out. *)
Fixpoint jsonMembers (stringify : value -> option json)
  (props : list (jsstring * value)) : list (jsstring * json) :=
  match props with
  | [] => []
  | (k, x) :: rest =>
      match stringify x with
      | Some j => (k, j) :: jsonMembers stringify rest
      | None => jsonMembers stringify rest
      end
  end.

(** [JSON.stringify]: [None] where the value has no JSON form
    ([undefined]).  An object member without a JSON form is left out, an
    array element without one is written [null], and so is a number that is
    not finite. *)
Fixpoint JSON_stringify (v : value) : option json :=
  match v with
  | VUndefined => None
  | VNull => Some JNull
  | VBool b => Some (JBool b)
  | VNumber (Finite q) => Some (JNumber q)
  | VNumber _ => Some JNull
  | VString s => Some (JString s)
  | VArray items =>
      Some (JArray
        (map (fun i => match JSON_stringify i with
                       | Some j => j
                       | None => JNull
                       end) items))
  | VObject props => Some (JObject (jsonMembers JSON_stringify props))
  end.

(** Definition of a property while an object is built: a name that the
    object already has keeps its place and takes the new value, a new name
    is added after the others. *)
Fixpoint setMember (k : jsstring) (v : value)
  (props : list (jsstring * value)) : list (jsstring * value) :=
  match props with
  | [] => [(k, v)]
  | (k', v') :: rest =>
      if str_eqb k k' then (k', v) :: rest
      else (k', v') :: setMember k v rest
  end.

(** The properties of the object made from the members of a document, read
    left to right: of two members with one name the later one is kept. *)
Definition objectOf (members : list (jsstring * value))
  : list (jsstring * value) :=
  fold_left (fun props m => setMember (fst m) (snd m) props) members [].

(** [JSON.parse] of a document. *)
Fixpoint JSON_parse (j : json) : value :=
  match j with
  | JNull => VNull
  | JBool b => VBool b
  | JNumber q => VNumber (Finite q)
  | JString s => VString s
  | JArray items => VArray (map JSON_parse items)
  | JObject members =>
      VObject (objectOf (map (fun m => (fst m, JSON_parse (snd m))) members))
  end.

(** An array element after [JSON.parse(JSON.stringify(...))]. *)
Definition viaJSON (v : value) : value :=
  JSON_parse (match JSON_stringify v with Some j => j | None => JNull end).

(** A value without structure that [JSON.stringify] writes as it is, or
    leaves out ([undefined]). *)
Definition flat (v : value) : Prop :=
  match v with
  | VArray _ | VObject _ => False
  | VNumber n => isFinite n = true
  | _ => True
  end.

(* ------------------------------------------------------------------ *)
(** ** Week entries and derived weeks *)

Record WeekEntry : Type := mkWeekEntry {
  weekStart : jsstring;
  deepWorkH : option number;
  playH : option number;
  realContactsPerWeek : option number;
  sleepScore : option number;
  alcoholDeviationPerWeek : option number;
  avgStepsPerDay : option number;
  emergencyFundMonths : option number;
  pipelineActionsPerWeek : option number;
  incomeJPY : option number;
  manualRedFlag : option bool;
  paymentRedFlag : option bool;
  notes : option jsstring
}.

Record AutoFlags : Type := mkAutoFlags {
  sleep : bool;
  contacts : bool;
  noIncome : bool
}.

Inductive Grade : Type := A | B | C.

(** [DerivedWeek = WeekEntry & { ... }]: the fields of the entry, copied
    by the spread [...entry], and the five computed ones. *)
Record DerivedWeek : Type := mkDerivedWeek {
  entry : WeekEntry;
  totalScore : Z;
  grade : Grade;
  emojiLabel : jsstring;
  autoFlags : AutoFlags;
  overallRedFlag : bool
}.

Module scoreRules.
Definition deepWorkH (value : number) : Z :=
  if geq value 12 then 2 else if geq value 6 then 1 else 0.
Definition playH (value : number) : Z :=
  if geq value 6 then 2 else if geq value 2 then 1 else 0.
Definition realContactsPerWeek (value : number) : Z :=
  if geq value 1 then 2 else if geq value (1 # 2) then 1 else 0.
Definition sleepScore (value : number) : Z :=
  if geq value 7 then 2 else if geq value 5 then 1 else 0.
Definition alcoholDeviationPerWeek (value : number) : Z :=
  if strictEq value 0 then 2 else if strictEq value 1 then 1 else 0.
Definition avgStepsPerDay (value : number) : Z :=
  if geq value 7000 then 2 else if geq value 4000 then 1 else 0.
Definition emergencyFundMonths (value : number) : Z :=
  if geq value 12 then 2 else if geq value 6 then 1 else 0.
Definition pipelineActionsPerWeek (value : number) : Z :=
  if geq value 2 then 2 else if geq value 1 then 1 else 0.
End scoreRules.

(** The labels of [emojiMap]: a coloured circle (a surrogate pair) and
    the grade letter. *)
Definition emojiMap (g : Grade) : jsstring :=
  match g with
  | A => [55357; 57314; 65]%N
  | B => [55357; 57313; 66]%N
  | C => [55357; 56628; 67]%N
  end.

(** [createEmptyEntry(weekStart)].  The default of the argument, the
    Monday of the current week, is read from the clock by the caller. *)
Definition createEmptyEntry (weekStart : jsstring) : WeekEntry :=
  {| weekStart := weekStart;
     deepWorkH := None;
     playH := None;
     realContactsPerWeek := None;
     sleepScore := None;
     alcoholDeviationPerWeek := None;
     avgStepsPerDay := None;
     emergencyFundMonths := None;
     pipelineActionsPerWeek := None;
     incomeJPY := None;
     manualRedFlag := Some false;
     paymentRedFlag := Some false;
     notes := Some [] |}.

Definition toBooleanValue (v : value) : bool :=
  match v with
  | VBool b => b
  | VString s =>
      let normalized := toLowerCase (trim s) in
      if str_eqb normalized (lit "true") then true
      else if str_eqb normalized (lit "false") then false
      else Boolean v
  | _ => Boolean v
  end.

(** The three streak counters of one derivation. *)
Record Streaks : Type := mkStreaks {
  sleepStreak : nat;
  contactStreak : nat;
  noIncomeStreak : nat
}.

Definition valueOrZero (v : option number) : number :=
  match v with Some n => n | None => Finite 0 end.

Definition isTrue (b : option bool) : bool :=
  match b with Some true => true | _ => false end.

(** The callback of [map] in [computeDerivedWeeks]: it reads and updates
    the three counters captured from the enclosing call. *)
Definition deriveWeek (st : Streaks) (entry : WeekEntry)
  : Streaks * DerivedWeek :=
  let scores : list Z :=
    [ scoreRules.deepWorkH (valueOrZero (deepWorkH entry));
      scoreRules.playH (valueOrZero (playH entry));
      scoreRules.realContactsPerWeek (valueOrZero (realContactsPerWeek entry));
      scoreRules.sleepScore (valueOrZero (sleepScore entry));
      scoreRules.alcoholDeviationPerWeek
        (valueOrZero (alcoholDeviationPerWeek entry));
      scoreRules.avgStepsPerDay (valueOrZero (avgStepsPerDay entry));
      scoreRules.emergencyFundMonths (valueOrZero (emergencyFundMonths entry));
      scoreRules.pipelineActionsPerWeek
        (valueOrZero (pipelineActionsPerWeek entry)) ] in
  let totalScore :=
    fold_left (fun acc current => (acc + current)%Z) scores 0%Z in
  let baseGrade :=
    if (13 <=? totalScore)%Z then A
    else if (8 <=? totalScore)%Z then B else C in
  let sleepLow := leq (valueOrZero (sleepScore entry)) 4 in
  let sleepStreak' := if sleepLow then sleepStreak st + 1 else 0 in
  let sleepFlag := 2 <=? sleepStreak' in
  let contactZero := leq (valueOrZero (realContactsPerWeek entry)) 0 in
  let contactStreak' := if contactZero then contactStreak st + 1 else 0 in
  let contactFlag := 2 <=? contactStreak' in
  let incomeZero := leq (valueOrZero (incomeJPY entry)) 0 in
  let noIncomeStreak' := if incomeZero then noIncomeStreak st + 1 else 0 in
  let noIncomeFlag := 8 <=? noIncomeStreak' in
  let autoFlags :=
    {| sleep := sleepFlag;
       contacts := contactFlag;
       noIncome := noIncomeFlag |} in
  let overallRedFlag :=
    isTrue (manualRedFlag entry) || isTrue (paymentRedFlag entry)
    || existsb (fun f => f)
         [sleep autoFlags; contacts autoFlags; noIncome autoFlags] in
  let grade := if overallRedFlag then C else baseGrade in
  let emojiLabel :=
    if overallRedFlag then emojiMap C else emojiMap baseGrade in
  ({| sleepStreak := sleepStreak';
      contactStreak := contactStreak';
      noIncomeStreak := noIncomeStreak' |},
   {| entry := entry;
      totalScore := totalScore;
      grade := grade;
      emojiLabel := emojiLabel;
      autoFlags := autoFlags;
      overallRedFlag := overallRedFlag |}).

(** [Array.prototype.map] with a callback that threads the counters. *)
Fixpoint mapWeeks (st : Streaks) (entries : list WeekEntry)
  : list DerivedWeek :=
  match entries with
  | [] => []
  | e :: rest =>
      let (st', d) := deriveWeek st e in d :: mapWeeks st' rest
  end.

(** The property names read by the sanitizer. *)
Module key.
Definition weekStart := lit "weekStart".
Definition deepWorkH := lit "deepWorkH".
Definition playH := lit "playH".
Definition realContactsPerWeek := lit "realContactsPerWeek".
Definition sleepScore := lit "sleepScore".
Definition alcoholDeviationPerWeek := lit "alcoholDeviationPerWeek".
Definition avgStepsPerDay := lit "avgStepsPerDay".
Definition emergencyFundMonths := lit "emergencyFundMonths".
Definition pipelineActionsPerWeek := lit "pipelineActionsPerWeek".
Definition incomeJPY := lit "incomeJPY".
Definition manualRedFlag := lit "manualRedFlag".
Definition paymentRedFlag := lit "paymentRedFlag".
Definition notes := lit "notes".
End key.

(** A typed entry seen as an untyped object: every field is an own
    property, an absent one holding [undefined]. *)
Definition ofNumber (v : option number) : value :=
  match v with Some n => VNumber n | None => VUndefined end.

Definition ofBoolean (v : option bool) : value :=
  match v with Some b => VBool b | None => VUndefined end.

Definition ofString (v : option jsstring) : value :=
  match v with Some s => VString s | None => VUndefined end.

Definition entryValue (e : WeekEntry) : value :=
  VObject
    [ (key.weekStart, VString (weekStart e));
      (key.deepWorkH, ofNumber (deepWorkH e));
      (key.playH, ofNumber (playH e));
      (key.realContactsPerWeek, ofNumber (realContactsPerWeek e));
      (key.sleepScore, ofNumber (sleepScore e));
      (key.alcoholDeviationPerWeek, ofNumber (alcoholDeviationPerWeek e));
      (key.avgStepsPerDay, ofNumber (avgStepsPerDay e));
      (key.emergencyFundMonths, ofNumber (emergencyFundMonths e));
      (key.pipelineActionsPerWeek, ofNumber (pipelineActionsPerWeek e));
      (key.incomeJPY, ofNumber (incomeJPY e));
      (key.manualRedFlag, ofBoolean (manualRedFlag e));
      (key.paymentRedFlag, ofBoolean (paymentRedFlag e));
      (key.notes, ofString (notes e)) ].

(** [JSON.parse(JSON.stringify(entries))]. *)
Definition jsonRoundTrip (entries : list WeekEntry) : option value :=
  option_map JSON_parse (JSON_stringify (VArray (map entryValue entries))).

(* ------------------------------------------------------------------ *)
(** ** Display helpers and field updates *)

(** The string a grade is. *)
Definition gradeString (g : Grade) : jsstring :=
  match g with
  | A => lit "A"
  | B => lit "B"
  | C => lit "C"
  end.

(** The text shown for a red-flagged week: the letter C followed by the
    word for red flag, in full-width parentheses. *)
Definition redFlagDescription : jsstring :=
  [67; 65288; 12524; 12483; 12489; 12501; 12521; 12464; 65289]%N.

(** [gradeDescription(derived)]; [None] is [undefined]. *)
Definition gradeDescription (derived : option DerivedWeek) : jsstring :=
  match derived with
  | None => lit "-"
  | Some d =>
      if overallRedFlag d then redFlagDescription else gradeString (grade d)
  end.

(** [Array.prototype.join] on strings. *)
Fixpoint join (separator : jsstring) (parts : list jsstring) : jsstring :=
  match parts with
  | [] => []
  | [part] => part
  | part :: rest => part ++ separator ++ join separator rest
  end.

(** The five labels of [flagLabels]: sleep, contacts, no income, manual,
    payment. *)
Module label.
Definition sleep : jsstring := [30561; 30496]%N.
Definition contacts : jsstring := [23550; 38754]%N.
Definition noIncome : jsstring := [28961; 21454; 20837]%N.
Definition manual : jsstring := [25163; 21205]%N.
Definition payment : jsstring := [25903; 25173]%N.
End label.

(** The labels pushed by [flagLabels], in the order of the pushes. *)
Definition pushedLabels (week : DerivedWeek) : list jsstring :=
  (if sleep (autoFlags week) then [label.sleep] else [])
  ++ (if contacts (autoFlags week) then [label.contacts] else [])
  ++ (if noIncome (autoFlags week) then [label.noIncome] else [])
  ++ (if isTrue (manualRedFlag (entry week)) then [label.manual] else [])
  ++ (if isTrue (paymentRedFlag (entry week)) then [label.payment] else []).

(** [flagLabels(week)]. *)
Definition flagLabels (week : DerivedWeek) : jsstring :=
  let labels := pushedLabels week in
  if 0 <? List.length labels then join (lit " / ") labels else lit "-".

(** The decimal digits of a natural number, as the conversion of a
    number to a string writes an index. *)
Fixpoint digitUnits (d : Decimal.uint) : jsstring :=
  match d with
  | Decimal.Nil => []
  | Decimal.D0 d' => 48%N :: digitUnits d'
  | Decimal.D1 d' => 49%N :: digitUnits d'
  | Decimal.D2 d' => 50%N :: digitUnits d'
  | Decimal.D3 d' => 51%N :: digitUnits d'
  | Decimal.D4 d' => 52%N :: digitUnits d'
  | Decimal.D5 d' => 53%N :: digitUnits d'
  | Decimal.D6 d' => 54%N :: digitUnits d'
  | Decimal.D7 d' => 55%N :: digitUnits d'
  | Decimal.D8 d' => 56%N :: digitUnits d'
  | Decimal.D9 d' => 57%N :: digitUnits d'
  end.

Definition indexToString (n : nat) : jsstring := digitUnits (Nat.to_uint n).

(** A point of the score chart. *)
Record ChartPoint : Type := mkChartPoint {
  name : jsstring;
  score : Z
}.

(** The callback of [derived.map] for [chartData], at position [index]:
    the name is the rank of the week followed by the two characters for
    "week number". *)
Definition chartPoint (week : DerivedWeek) (index : nat) : ChartPoint :=
  {| name := indexToString (index + 1) ++ [36913; 30446]%N;
     score := totalScore week |}.

(** [Array.prototype.map] with the index passed to the callback. *)
Fixpoint mapIndexed {X Y : Type} (f : X -> nat -> Y) (index : nat)
  (l : list X) : list Y :=
  match l with
  | [] => []
  | x :: rest => f x index :: mapIndexed f (S index) rest
  end.

Definition chartData (derived : list DerivedWeek) : list ChartPoint :=
  mapIndexed chartPoint 0 derived.

(** [derived[derived.length - 1]]; [None] is [undefined]. *)
Definition lastOf {X : Type} (l : list X) : option X :=
  match l with
  | [] => None
  | _ => nth_error l (List.length l - 1)
  end.

(** The keys of the numeric fields. *)
Module NumberKeys.
Inductive t : Type :=
| deepWorkH
| playH
| realContactsPerWeek
| sleepScore
| alcoholDeviationPerWeek
| avgStepsPerDay
| emergencyFundMonths
| pipelineActionsPerWeek
| incomeJPY.

Definition eqb (k k' : t) : bool :=
  match k, k' with
  | deepWorkH, deepWorkH
  | playH, playH
  | realContactsPerWeek, realContactsPerWeek
  | sleepScore, sleepScore
  | alcoholDeviationPerWeek, alcoholDeviationPerWeek
  | avgStepsPerDay, avgStepsPerDay
  | emergencyFundMonths, emergencyFundMonths
  | pipelineActionsPerWeek, pipelineActionsPerWeek
  | incomeJPY, incomeJPY => true
  | _, _ => false
  end.
End NumberKeys.

(** A key of [WeekEntry] with a value of the type of that key, the last
    two arguments of [handleEntryChange]. *)
Inductive FieldValue : Type :=
| WeekStartValue (value : jsstring)
| NumberValue (key : NumberKeys.t) (value : option number)
| ManualRedFlagValue (value : option bool)
| PaymentRedFlagValue (value : option bool)
| NotesValue (value : option jsstring).

(** [{ ...e, [key]: value }]. *)
Definition setField (e : WeekEntry) (update : FieldValue) : WeekEntry :=
  match update with
  | WeekStartValue v =>
      mkWeekEntry v (deepWorkH e) (playH e) (realContactsPerWeek e)
        (sleepScore e) (alcoholDeviationPerWeek e) (avgStepsPerDay e)
        (emergencyFundMonths e) (pipelineActionsPerWeek e) (incomeJPY e)
        (manualRedFlag e) (paymentRedFlag e) (notes e)
  | NumberValue k v =>
      let pick k' (field : WeekEntry -> option number) :=
        if NumberKeys.eqb k k' then v else field e in
      mkWeekEntry (weekStart e)
        (pick NumberKeys.deepWorkH deepWorkH)
        (pick NumberKeys.playH playH)
        (pick NumberKeys.realContactsPerWeek realContactsPerWeek)
        (pick NumberKeys.sleepScore sleepScore)
        (pick NumberKeys.alcoholDeviationPerWeek alcoholDeviationPerWeek)
        (pick NumberKeys.avgStepsPerDay avgStepsPerDay)
        (pick NumberKeys.emergencyFundMonths emergencyFundMonths)
        (pick NumberKeys.pipelineActionsPerWeek pipelineActionsPerWeek)
        (pick NumberKeys.incomeJPY incomeJPY)
        (manualRedFlag e) (paymentRedFlag e) (notes e)
  | ManualRedFlagValue v =>
      mkWeekEntry (weekStart e) (deepWorkH e) (playH e)
        (realContactsPerWeek e) (sleepScore e) (alcoholDeviationPerWeek e)
        (avgStepsPerDay e) (emergencyFundMonths e)
        (pipelineActionsPerWeek e) (incomeJPY e)
        v (paymentRedFlag e) (notes e)
  | PaymentRedFlagValue v =>
      mkWeekEntry (weekStart e) (deepWorkH e) (playH e)
        (realContactsPerWeek e) (sleepScore e) (alcoholDeviationPerWeek e)
        (avgStepsPerDay e) (emergencyFundMonths e)
        (pipelineActionsPerWeek e) (incomeJPY e)
        (manualRedFlag e) v (notes e)
  | NotesValue v =>
      mkWeekEntry (weekStart e) (deepWorkH e) (playH e)
        (realContactsPerWeek e) (sleepScore e) (alcoholDeviationPerWeek e)
        (avgStepsPerDay e) (emergencyFundMonths e)
        (pipelineActionsPerWeek e) (incomeJPY e)
        (manualRedFlag e) (paymentRedFlag e) v
  end.

(** [next[index] = entry] on a copy, for an index within the array. *)
Fixpoint replaceAt (index : nat) (entry : WeekEntry) (next : list WeekEntry)
  : list WeekEntry :=
  match next, index with
  | [], _ => []
  | _ :: rest, O => entry :: rest
  | e :: rest, S i => e :: replaceAt i entry rest
  end.

(** [saveEntries(entries)]: the document written under the storage key
    (there is a window). *)
Definition saveEntries (entries : list WeekEntry) : option json :=
  JSON_stringify (VArray (map entryValue entries)).

(** Milliseconds in a day, and the largest time value of a [Date]. *)
Definition msPerDay : Z := 86400000.

Definition maxTime : Z := 8640000000000000.

(** The day number of a time value in UTC, the day [toISOString]
    writes, and its day of the week (0 is Sunday). *)
Definition utcDay (t : Z) : Z := (t / msPerDay)%Z.

Definition utcWeekDay (t : Z) : Z := ((utcDay t + 4) mod 7)%Z.

(** [TimeClip]: [None] is the invalid date. *)
Definition timeClip (t : Z) : option Z :=
  if (Z.abs t <=? maxTime)%Z then Some t else None.

(* ------------------------------------------------------------------ *)
(** ** Sample data *)

(** A week with every scored metric in its top tier, and the given week
    start, sleep score and income. *)
Definition fullWeek (start : string) (sleepValue income : Q) : WeekEntry :=
  {| weekStart := lit start;
     deepWorkH := Some (Finite 12);
     playH := Some (Finite 6);
     realContactsPerWeek := Some (Finite 1);
     sleepScore := Some (Finite sleepValue);
     alcoholDeviationPerWeek := Some (Finite 0);
     avgStepsPerDay := Some (Finite 7000);
     emergencyFundMonths := Some (Finite 12);
     pipelineActionsPerWeek := Some (Finite 2);
     incomeJPY := Some (Finite income);
     manualRedFlag := Some false;
     paymentRedFlag := Some false;
     notes := Some [] |}.

Definition goodWeek : WeekEntry := fullWeek "2024-01-01" 8 1.

(** Two entries of the week of 8 January, both with a low sleep score. *)
Definition lowSleepFirst : WeekEntry := fullWeek "2024-01-08" 3 1.

Definition lowSleepSecond : WeekEntry := fullWeek "2024-01-08" 4 1.

(** A third entry of that week, with a good sleep score. *)
Definition restedSameWeek : WeekEntry := fullWeek "2024-01-08" 8 1.

(** Eight consecutive weeks without income, every scored metric in its
    top tier. *)
Definition weeksWithoutIncome : list WeekEntry :=
  map (fun start => fullWeek start 8 0)
    [ "2024-01-01"; "2024-01-08"; "2024-01-15"; "2024-01-22";
      "2024-01-29"; "2024-02-05"; "2024-02-12"; "2024-02-19" ]%string.

(** A stored record that holds a week start only. *)
Definition bareRecord (start : string) : value :=
  VObject [(key.weekStart, VString (lit start))].

(** A stored record whose fields need coercion. *)
Definition looseRecord : value :=
  VObject
    [ (key.weekStart, VString (lit "2024-01-01"));
      (key.deepWorkH, VString (lit " 12 "));
      (key.sleepScore, VNumber PosInfinity);
      (key.manualRedFlag, VString (lit " FALSE "));
      (key.notes, VNumber (Finite 3)) ].

(** One instance of the date functions, for the ISO form of dates:
    [isoDateParse] reads [YYYY-MM-DD] as midnight UTC of that day and
    nothing else; [isoString] writes a time value as [toISOString] does,
    for the years 0 to 9999. *)
Definition daysFromCivil (y m d : Z) : Z :=
  let y' := if (m <=? 2)%Z then (y - 1)%Z else y in
  let era := (y' / 400)%Z in
  let yoe := (y' - era * 400)%Z in
  let mp := ((m + 9) mod 12)%Z in
  let doy := ((153 * mp + 2) / 5 + d - 1)%Z in
  let doe := (yoe * 365 + yoe / 4 - yoe / 100 + doy)%Z in
  (era * 146097 + doe - 719468)%Z.

Definition civilFromDays (z : Z) : Z * Z * Z :=
  let z' := (z + 719468)%Z in
  let era := (z' / 146097)%Z in
  let doe := (z' - era * 146097)%Z in
  let yoe := ((doe - doe / 1460 + doe / 36524 - doe / 146096) / 365)%Z in
  let doy := (doe - (365 * yoe + yoe / 4 - yoe / 100))%Z in
  let mp := ((5 * doy + 2) / 153)%Z in
  let d := (doy - (153 * mp + 2) / 5 + 1)%Z in
  let m := if (mp <? 10)%Z then (mp + 3)%Z else (mp - 9)%Z in
  let y := (yoe + era * 400)%Z in
  (if (m <=? 2)%Z then (y + 1)%Z else y, m, d).

Definition isoDateParse (s : jsstring) : option Z :=
  match digitsValue 0 (firstn 4 s),
        digitsValue 0 (firstn 2 (skipn 5 s)),
        digitsValue 0 (skipn 8 s) with
  | Some y, Some m, Some d =>
      let days := daysFromCivil y m d in
      let '(y', m', d') := civilFromDays days in
      if (List.length s =? 10)
         && str_eqb (firstn 1 (skipn 4 s)) (lit "-")
         && str_eqb (firstn 1 (skipn 7 s)) (lit "-")
         && (y =? y')%Z && (m =? m')%Z && (d =? d')%Z
      then Some (days * msPerDay)%Z
      else None
  | _, _, _ => None
  end.

(** The last [width] decimal digits of [n]. *)
Fixpoint paddedDigits (width : nat) (n : Z) : jsstring :=
  match width with
  | O => []
  | S w => paddedDigits w (n / 10) ++ [Z.to_N (48 + n mod 10)]
  end.

Definition isoString (t : Z) : jsstring :=
  let '(y, m, d) := civilFromDays (t / msPerDay) in
  let ms := (t mod msPerDay)%Z in
  paddedDigits 4 y ++ lit "-" ++ paddedDigits 2 m ++ lit "-"
  ++ paddedDigits 2 d ++ lit "T" ++ paddedDigits 2 (ms / 3600000)
  ++ lit ":" ++ paddedDigits 2 (ms / 60000 mod 60)
  ++ lit ":" ++ paddedDigits 2 (ms / 1000 mod 60)
  ++ lit "." ++ paddedDigits 3 (ms mod 1000) ++ lit "Z".

(** Japan Standard Time, nine hours ahead of UTC, and noon of Wednesday
    3 January 2024 there. *)
Definition japanTime : Z := 32400000.

Definition aWednesdayNoon : Z := (19725 * msPerDay + 3 * 3600000)%Z.

(* ------------------------------------------------------------------ *)
(** ** The engine, over the platform's collation and number conversion *)

Section Engine.

(** The sign of [a.localeCompare(b)]. *)
Variable localeCompare : jsstring -> jsstring -> comparison.

(** [Number(s)] on a string. *)
Variable Number : jsstring -> number.

Definition toNumericValue (v : value) : option number :=
  match v with
  | VNull | VUndefined => None
  | VNumber n => if isFinite n then Some n else None
  | VString s =>
      let trimmed := trim s in
      if str_eqb trimmed [] then None
      else
        let parsed := Number trimmed in
        if isFinite parsed then Some parsed else None
  | _ => None
  end.

(** Insertion of an entry in front of the first entry that does not sort
    before it. *)
Fixpoint insertEntry (e : WeekEntry) (sorted : list WeekEntry)
  : list WeekEntry :=
  match sorted with
  | [] => [e]
  | y :: rest =>
      match localeCompare (weekStart y) (weekStart e) with
      | Lt => y :: insertEntry e rest
      | _ => e :: sorted
      end
  end.

(** [[...entries].sort((a, b) => a.weekStart.localeCompare(b.weekStart))]:
    a fresh array, stably sorted. *)
Definition sortEntries (entries : list WeekEntry) : list WeekEntry :=
  fold_right insertEntry [] entries.

(** [typeof item === "object"]. *)
Definition typeofObject (item : value) : bool :=
  match item with
  | VNull | VArray _ | VObject _ => true
  | _ => false
  end.

(** One turn of the loop of [parseStoredEntries]: [None] is the early
    [return null]. *)
Definition sanitizeItem (item : value) : option WeekEntry :=
  if negb (Boolean item) || negb (typeofObject item) then None
  else
    match getProp item key.weekStart with
    | VString weekStart =>
        Some
          {| weekStart := weekStart;
             deepWorkH := toNumericValue (getProp item key.deepWorkH);
             playH := toNumericValue (getProp item key.playH);
             realContactsPerWeek :=
               toNumericValue (getProp item key.realContactsPerWeek);
             sleepScore := toNumericValue (getProp item key.sleepScore);
             alcoholDeviationPerWeek :=
               toNumericValue (getProp item key.alcoholDeviationPerWeek);
             avgStepsPerDay := toNumericValue (getProp item key.avgStepsPerDay);
             emergencyFundMonths :=
               toNumericValue (getProp item key.emergencyFundMonths);
             pipelineActionsPerWeek :=
               toNumericValue (getProp item key.pipelineActionsPerWeek);
             incomeJPY := toNumericValue (getProp item key.incomeJPY);
             manualRedFlag :=
               Some (toBooleanValue (getProp item key.manualRedFlag));
             paymentRedFlag :=
               Some (toBooleanValue (getProp item key.paymentRedFlag));
             notes :=
               match getProp item key.notes with
               | VString s => Some s
               | _ => Some []
               end |}
    | _ => None
    end.

(** The loop: [sanitized] is the array pushed to so far. *)
Fixpoint sanitizeLoop (raw : list value) (sanitized : list WeekEntry)
  : option (list WeekEntry) :=
  match raw with
  | [] => Some sanitized
  | item :: rest =>
      match sanitizeItem item with
      | Some e => sanitizeLoop rest (sanitized ++ [e])
      | None => None
      end
  end.

(** [parseStoredEntries(raw)]; [None] is [null]. *)
Definition parseStoredEntries (raw : value) : option (list WeekEntry) :=
  match raw with
  | VArray items =>
      match sanitizeLoop items [] with
      | Some sanitized => Some (sortEntries sanitized)
      | None => None
      end
  | _ => None
  end.

(** [loadEntries()].  [today] is the Monday of the current week;
    [stored] is the parsed content of the storage key, [None] when there
    is no window, no item, or the text does not parse. *)
Definition loadEntries (today : jsstring) (stored : option value)
  : list WeekEntry :=
  match stored with
  | None => [createEmptyEntry today]
  | Some parsed =>
      match parseStoredEntries parsed with
      | None | Some [] => [createEmptyEntry today]
      | Some sanitized => sortEntries sanitized
      end
  end.

Definition zeroStreaks : Streaks :=
  {| sleepStreak := 0; contactStreak := 0; noIncomeStreak := 0 |}.

(** [computeDerivedWeeks(entries)]: the counters are locals of the call,
    set to zero on entry. *)
Definition computeDerivedWeeks (entries : list WeekEntry)
  : list DerivedWeek :=
  mapWeeks zeroStreaks (sortEntries entries).

(** The counters once the callback has run on [weeks], from [st]. *)
Definition streaksFrom (st : Streaks) (weeks : list WeekEntry) : Streaks :=
  fold_left (fun s e => fst (deriveWeek s e)) weeks st.

(** The counters of a derivation after the first weeks [weeks] of its
    sorted input. *)
Definition streaksAfter (weeks : list WeekEntry) : Streaks :=
  streaksFrom zeroStreaks weeks.

(** [prev.filter((_, idx) => idx !== index)]. *)
Fixpoint removeAt (index : nat) (prev : list WeekEntry) : list WeekEntry :=
  match prev, index with
  | [], _ => []
  | _ :: rest, O => rest
  | e :: rest, S i => e :: removeAt i rest
  end.

(** The state updaters of the [App] component, as functions of the
    previous collection. *)
Definition handleDeleteEntry (index : nat) (prev : list WeekEntry)
  : list WeekEntry :=
  if List.length prev <=? 1 then prev else sortEntries (removeAt index prev).

(** [handleImport]: [parsed] is the parsed file, [None] when
    [JSON.parse] throws.  On [throw] the collection is left as it was and
    the error message is set. *)
Definition handleImport (parsed : option value) (prev : list WeekEntry)
  : list WeekEntry :=
  match parsed with
  | None => prev
  | Some raw =>
      match parseStoredEntries raw with
      | None => prev
      | Some sanitized => sanitized
      end
  end.

Definition handleClearAll (today : jsstring) (confirmed : bool)
  (prev : list WeekEntry) : list WeekEntry :=
  if confirmed then [createEmptyEntry today] else prev.


(** [latestWeek], the last derived week, and the text of the summary
    card, [latestWeek?.emojiLabel ?? "-"]. *)
Definition latestWeek (entries : list WeekEntry) : option DerivedWeek :=
  lastOf (computeDerivedWeeks entries).

Definition summaryLabel (entries : list WeekEntry) : jsstring :=
  match latestWeek entries with
  | Some d => emojiLabel d
  | None => lit "-"
  end.

(** [handleExport]: the document offered for download.  The indentation
    asked of [JSON.stringify] changes the text, not the document. *)
Definition handleExport (entries : list WeekEntry) : option json :=
  JSON_stringify (VArray (map entryValue (sortEntries entries))).

(** The effect that runs after each change of the collection:
    [saveEntries(sortEntries(entries))]. *)
Definition saveEffect (entries : list WeekEntry) : option json :=
  saveEntries (sortEntries entries).

(* ---------------------------------------------------------------- *)
(** ** Dates, and the handlers that add or edit a week *)

Section Calendar.

(** A [Date] is its time value, the milliseconds since the epoch in UTC.
    The local time zone is at a constant offset from UTC, [LocalTZA]
    milliseconds, over the days a computation spans. *)
Variable LocalTZA : Z.

(** [new Date(s)] on a string: the time value, [None] for the invalid
    date. *)
Variable Date_parse : jsstring -> option Z.

(** [date.toISOString()] on a valid date. *)
Variable toISOString : Z -> jsstring.

(** The day number of a time value, in local time. *)
Definition localDay (t : Z) : Z := ((t + LocalTZA) / msPerDay)%Z.

(** [date.getDay()]: 0 is Sunday; the epoch was a Thursday. *)
Definition getDay (date : Z) : Z := ((localDay date + 4) mod 7)%Z.

(** [date.setDate(date.getDate() + days)]: the local calendar day moves
    by [days], the time within the day stays.  With the local time zone at
    the constant offset [LocalTZA], local time is the time value plus
    [LocalTZA] before and after the move, and the time value moves by
    [days] times 24 hours.  A change of the offset between the two days
    (daylight saving) is outside this model: the platform then returns a
    time value that differs from this one by the change of offset. *)
Definition addDays (days : Z) (date : Z) : Z := (date + days * msPerDay)%Z.

(** [date.setHours(0, 0, 0, 0)]: local midnight of the same local day. *)
Definition startOfDay (date : Z) : Z :=
  (localDay date * msPerDay - LocalTZA)%Z.

Definition getMonday (date : Z) : Z :=
  let day := getDay date in
  let diff := if (day =? 0)%Z then (-6)%Z else (1 - day)%Z in
  let monday := date in
  let monday := addDays diff monday in
  let monday := startOfDay monday in
  monday.

(** [date.toISOString().slice(0, 10)]. *)
Definition formatDate (date : Z) : jsstring := firstn 10 (toISOString date).

(** [nextWeekStart(current)]; [None] when [toISOString] throws a
    [RangeError], the date being invalid. *)
Definition nextWeekStart (current : jsstring) : option jsstring :=
  match Date_parse current with
  | None => None
  | Some date =>
      match timeClip (addDays 7 date) with
      | None => None
      | Some date' => Some (formatDate date')
      end
  end.

(** [handleEntryChange(index, key, value)], as a function of the previous
    collection.  [None] for an index outside the collection, where the
    array gets an element that is not a [WeekEntry]. *)
Definition handleEntryChange (index : nat) (update : FieldValue)
  (prev : list WeekEntry) : option (list WeekEntry) :=
  match nth_error prev index with
  | None => None
  | Some e => Some (sortEntries (replaceAt index (setField e update) prev))
  end.

(** [handleNumberChange(index, key, value)]; [value] is the text of the
    input. *)
Definition handleNumberChange (index : nat) (key : NumberKeys.t)
  (value : jsstring) (prev : list WeekEntry) : option (list WeekEntry) :=
  handleEntryChange index (NumberValue key (toNumericValue (VString value)))
    prev.

(** [handleAddWeek]; [now] is the clock.  [None] when [nextWeekStart]
    throws. *)
Definition handleAddWeek (now : Z) (prev : list WeekEntry)
  : option (list WeekEntry) :=
  let sorted := sortEntries prev in
  match lastOf sorted with
  | Some last =>
      match nextWeekStart (weekStart last) with
      | Some newWeekStart =>
          Some (sortEntries (sorted ++ [createEmptyEntry newWeekStart]))
      | None => None
      end
  | None =>
      Some (sortEntries
              (sorted ++ [createEmptyEntry (formatDate (getMonday now))]))
  end.

(** The week made by [handleCopyPrevious] from the last week. *)
Definition copiedWeek (newWeekStart : jsstring) (last : WeekEntry)
  : WeekEntry :=
  {| weekStart := newWeekStart;
     deepWorkH := deepWorkH last;
     playH := playH last;
     realContactsPerWeek := realContactsPerWeek last;
     sleepScore := sleepScore last;
     alcoholDeviationPerWeek := alcoholDeviationPerWeek last;
     avgStepsPerDay := avgStepsPerDay last;
     emergencyFundMonths := emergencyFundMonths last;
     pipelineActionsPerWeek := pipelineActionsPerWeek last;
     incomeJPY := incomeJPY last;
     manualRedFlag := Some false;
     paymentRedFlag := Some false;
     notes := Some [] |}.

(** [handleCopyPrevious]; [None] when [nextWeekStart] throws. *)
Definition handleCopyPrevious (prev : list WeekEntry)
  : option (list WeekEntry) :=
  let sorted := sortEntries prev in
  match lastOf sorted with
  | None => Some sorted
  | Some last =>
      match nextWeekStart (weekStart last) with
      | Some newWeekStart =>
          Some (sortEntries (sorted ++ [copiedWeek newWeekStart last]))
      | None => None
      end
  end.

(** What the user can do to the collection: the calls the page makes. *)
Inductive Action : Type :=
| EditWeekStart (index : nat) (value : jsstring)
| EditNumber (index : nat) (key : NumberKeys.t) (value : jsstring)
| EditManualRedFlag (index : nat) (checked : bool)
| EditPaymentRedFlag (index : nat) (checked : bool)
| EditNotes (index : nat) (value : jsstring)
| AddWeek (now : Z)
| CopyPrevious
| DeleteEntry (index : nat)
| Import (parsed : option value)
| ClearAll (now : Z) (confirmed : bool).

(** The collection after an action; [None] when the handler throws or the
    index is outside the collection. *)
Definition act (a : Action) (prev : list WeekEntry)
  : option (list WeekEntry) :=
  match a with
  | EditWeekStart index value =>
      handleEntryChange index (WeekStartValue value) prev
  | EditNumber index key value => handleNumberChange index key value prev
  | EditManualRedFlag index checked =>
      handleEntryChange index (ManualRedFlagValue (Some checked)) prev
  | EditPaymentRedFlag index checked =>
      handleEntryChange index (PaymentRedFlagValue (Some checked)) prev
  | EditNotes index value =>
      handleEntryChange index (NotesValue (Some value)) prev
  | AddWeek now => handleAddWeek now prev
  | CopyPrevious => handleCopyPrevious prev
  | DeleteEntry index => Some (handleDeleteEntry index prev)
  | Import parsed => Some (handleImport parsed prev)
  | ClearAll now confirmed =>
      Some (handleClearAll (formatDate (getMonday now)) confirmed prev)
  end.

(** The collections the page can hold: the one loaded at start, and those
    reached from it by actions. *)
Inductive Reachable (now : Z) (stored : option value)
  : list WeekEntry -> Prop :=
| Reachable_start :
    Reachable now stored (loadEntries (formatDate (getMonday now)) stored)
| Reachable_act a prev next :
    Reachable now stored prev ->
    act a prev = Some next ->
    Reachable now stored next.

End Calendar.

(* ---------------------------------------------------------------- *)
(** ** What the specification says, in its own words *)

(** The failure conditions of the three streaks. *)
Definition sleepLow (e : WeekEntry) : bool :=
  leq (valueOrZero (sleepScore e)) 4.

Definition contactZero (e : WeekEntry) : bool :=
  leq (valueOrZero (realContactsPerWeek e)) 0.

Definition incomeZero (e : WeekEntry) : bool :=
  leq (valueOrZero (incomeJPY e)) 0.

(** Number of weeks at the head of [weeks] that fail. *)
Fixpoint leadingRun (fails : WeekEntry -> bool) (weeks : list WeekEntry)
  : nat :=
  match weeks with
  | e :: rest => if fails e then S (leadingRun fails rest) else 0
  | [] => 0
  end.

(** Length of the run of failing weeks that ends with the last week of
    [weeks]: the current week and the weeks immediately before it. *)
Definition runEnding (fails : WeekEntry -> bool) (weeks : list WeekEntry)
  : nat :=
  leadingRun fails (rev weeks).

(** [v] is at least [c], as numbers compare. *)
Definition atLeast (v : number) (c : Q) : Prop :=
  match v with
  | Finite q => (c <= q)%Q
  | PosInfinity => True
  | NegInfinity | NaN => False
  end.

(** [v] is exactly [c]. *)
Definition exactly (v : number) (c : Q) : Prop :=
  match v with
  | Finite q => (q == c)%Q
  | _ => False
  end.

(** A row of the scoring table with thresholds: 2 points from [two] on,
    1 point from [one] on, 0 otherwise. *)
Definition thresholdRow (two one : Q) (v : number) (score : Z) : Prop :=
  (atLeast v two -> score = 2%Z)
  /\ (~ atLeast v two -> atLeast v one -> score = 1%Z)
  /\ (~ atLeast v one -> score = 0%Z).

(** The row of the alcohol deviation: two discrete checks. *)
Definition discreteRow (v : number) (score : Z) : Prop :=
  (exactly v 0 -> score = 2%Z)
  /\ (exactly v 1 -> score = 1%Z)
  /\ (~ exactly v 0 -> ~ exactly v 1 -> score = 0%Z).

(** A metric of an entry, absence read as zero. *)
Definition metric (field : WeekEntry -> option number) (e : WeekEntry)
  : number :=
  match field e with Some n => n | None => Finite 0 end.

(** The eight scored metrics; [incomeJPY] is not one of them. *)
Definition scoredFields : list (WeekEntry -> option number) :=
  [ deepWorkH; playH; realContactsPerWeek; sleepScore;
    alcoholDeviationPerWeek; avgStepsPerDay; emergencyFundMonths;
    pipelineActionsPerWeek ].

(** Two entries that agree on the eight scored metrics once absence is
    read as zero. *)
Definition sameScoredMetrics (e e' : WeekEntry) : Prop :=
  Forall (fun field => metric field e = metric field e') scoredFields.

(** [v] is at most [c], as numbers compare. *)
Definition atMost (v : number) (c : Q) : Prop :=
  match v with
  | Finite q => (q <= c)%Q
  | NegInfinity => True
  | PosInfinity | NaN => False
  end.

(** The failure conditions of the three streaks, on the metrics with
    absence read as zero: a sleep score of at most 4, at most 0 real
    contacts, an income of at most 0. *)
Definition lowSleepWeek (e : WeekEntry) : Prop :=
  atMost (metric sleepScore e) 4.

Definition noContactWeek (e : WeekEntry) : Prop :=
  atMost (metric realContactsPerWeek e) 0.

Definition noIncomeWeek (e : WeekEntry) : Prop :=
  atMost (metric incomeJPY e) 0.

(** The run of failing weeks that ends with the last week of [weeks] has
    length at least [k]: the last [k] weeks, the current week and the weeks
    immediately before it, all fail. *)
Definition runAtLeast (fails : WeekEntry -> Prop) (weeks : list WeekEntry)
  (k : nat) : Prop :=
  exists earlier window,
    weeks = earlier ++ window
    /\ List.length window = k
    /\ Forall fails window.

(** What the numeric coercion is to return on [v]: a finite number as
    it is, a string through trimming and conversion when the trimmed
    string is not empty and converts to a finite number, absence in every
    other case. *)
Definition coercedNumber (v : value) (r : option number) : Prop :=
  match v with
  | VNumber n =>
      (isFinite n = true -> r = Some n)
      /\ (isFinite n = false -> r = None)
  | VString s =>
      (trim s <> [] -> isFinite (Number (trim s)) = true ->
       r = Some (Number (trim s)))
      /\ (trim s = [] \/ isFinite (Number (trim s)) = false -> r = None)
  | _ => r = None
  end.

(** [s] is [word] up to the case of its letters. *)
Definition matchesIgnoringCase (s word : jsstring) : Prop :=
  toLowerCase s = word.

(** The numeric field of an entry that a number box of the page names. *)
Definition fieldOf (key : NumberKeys.t) (e : WeekEntry) : option number :=
  match key with
  | NumberKeys.deepWorkH => deepWorkH e
  | NumberKeys.playH => playH e
  | NumberKeys.realContactsPerWeek => realContactsPerWeek e
  | NumberKeys.sleepScore => sleepScore e
  | NumberKeys.alcoholDeviationPerWeek => alcoholDeviationPerWeek e
  | NumberKeys.avgStepsPerDay => avgStepsPerDay e
  | NumberKeys.emergencyFundMonths => emergencyFundMonths e
  | NumberKeys.pipelineActionsPerWeek => pipelineActionsPerWeek e
  | NumberKeys.incomeJPY => incomeJPY e
  end.

(** What the boolean coercion returns on [v]: a boolean as it is, a
    string that is [true] or [false] after trimming, whatever the case of
    its letters, as that boolean, and the truthiness of [v] in every other
    case. *)
Definition coercedBoolean (v : value) (r : bool) : Prop :=
  match v with
  | VBool b => r = b
  | VString s =>
      (matchesIgnoringCase (trim s) (lit "true") -> r = true)
      /\ (matchesIgnoringCase (trim s) (lit "false") -> r = false)
      /\ (~ matchesIgnoringCase (trim s) (lit "true") ->
          ~ matchesIgnoringCase (trim s) (lit "false") ->
          r = Boolean v)
  | _ => r = Boolean v
  end.

(** The boolean coercion as the specification words it: the string
    itself, not the trimmed string, is matched. *)
Definition untrimmedBoolean (v : value) (r : bool) : Prop :=
  match v with
  | VBool b => r = b
  | VString s =>
      (matchesIgnoringCase s (lit "true") -> r = true)
      /\ (matchesIgnoringCase s (lit "false") -> r = false)
      /\ (~ matchesIgnoringCase s (lit "true") ->
          ~ matchesIgnoringCase s (lit "false") ->
          r = Boolean v)
  | _ => r = Boolean v
  end.

(** What [notes] becomes. *)
Definition coercedNotes (v : value) (r : option jsstring) : Prop :=
  match v with
  | VString s => r = Some s
  | _ => r = Some []
  end.

(** An element the sanitizer accepts: a structured record whose
    [weekStart] is a string. *)
Definition weekRecord (item : value) : Prop :=
  exists props ws,
    item = VObject props /\ lookup key.weekStart props = Some (VString ws).

(** [e] does not sort after [e'] by week start, for the collation and
    for the code-unit (lexicographic) order. *)
Definition notAfter (e e' : WeekEntry) : Prop :=
  localeCompare (weekStart e) (weekStart e') <> Gt.

Definition lexNotAfter (e e' : WeekEntry) : Prop :=
  codeUnitCompare (weekStart e) (weekStart e') <> Gt.

(** [e] sorts together with the week start [k]. *)
Definition sameWeek (k : jsstring) (e : WeekEntry) : bool :=
  match localeCompare (weekStart e) k with Eq => true | _ => false end.

(** [e] sorts before, respectively after, the week start [k]. *)
Definition before (k : jsstring) (e : WeekEntry) : bool :=
  match localeCompare (weekStart e) k with Lt => true | _ => false end.

Definition after (k : jsstring) (e : WeekEntry) : bool :=
  match localeCompare (weekStart e) k with Gt => true | _ => false end.

(** The sanitized elements of a batch, in the order of the batch. *)
Definition sanitizedBatch (items : list value) : list (option WeekEntry) :=
  map sanitizeItem items.

(** Duplicate weeks as the specification words them: of any two entries of
    the input with the same [weekStart] and a sleep score of at most 4
    each, the one placed later has a record that is flagged for sleep. *)
Definition laterDuplicateFlagged (entries : list WeekEntry) : Prop :=
  forall l1 e1 l2 e2 l3,
    entries = l1 ++ e1 :: l2 ++ e2 :: l3 ->
    weekStart e1 = weekStart e2 ->
    lowSleepWeek e1 ->
    lowSleepWeek e2 ->
    exists d,
      In d (computeDerivedWeeks entries)
      /\ entry d = e2
      /\ sleep (autoFlags d) = true.

(** A valid entry: its numeric fields, when present, are finite. *)
Definition finiteField (v : option number) : Prop :=
  match v with Some n => isFinite n = true | None => True end.

Definition validEntry (e : WeekEntry) : Prop :=
  Forall (fun field => finiteField (field e))
    [ deepWorkH; playH; realContactsPerWeek; sleepScore;
      alcoholDeviationPerWeek; avgStepsPerDay; emergencyFundMonths;
      pipelineActionsPerWeek; incomeJPY ].

(** Normalization of absent fields: an absent boolean is false, absent
    notes are the empty string, an absent number stays absent. *)
Definition normalizeAbsent (e : WeekEntry) : WeekEntry :=
  {| weekStart := weekStart e;
     deepWorkH := deepWorkH e;
     playH := playH e;
     realContactsPerWeek := realContactsPerWeek e;
     sleepScore := sleepScore e;
     alcoholDeviationPerWeek := alcoholDeviationPerWeek e;
     avgStepsPerDay := avgStepsPerDay e;
     emergencyFundMonths := emergencyFundMonths e;
     pipelineActionsPerWeek := pipelineActionsPerWeek e;
     incomeJPY := incomeJPY e;
     manualRedFlag :=
       Some (match manualRedFlag e with Some b => b | None => false end);
     paymentRedFlag :=
       Some (match paymentRedFlag e with Some b => b | None => false end);
     notes := Some (match notes e with Some s => s | None => [] end) |}.

(** An entry as the page and the sanitizer make them: finite numbers,
    both flags and the notes present. *)
Definition complete (e : WeekEntry) : Prop :=
  validEntry e
  /\ manualRedFlag e <> None
  /\ paymentRedFlag e <> None
  /\ notes e <> None.

(* ---------------------------------------------------------------- *)
(** ** One week *)

Lemma deriveWeek_entry st e : entry (snd (deriveWeek st e)) = e.
Proof. reflexivity. Qed.

Lemma deriveWeek_totalScore st e :
  totalScore (snd (deriveWeek st e)) =
  (scoreRules.deepWorkH (valueOrZero (deepWorkH e))
   + scoreRules.playH (valueOrZero (playH e))
   + scoreRules.realContactsPerWeek (valueOrZero (realContactsPerWeek e))
   + scoreRules.sleepScore (valueOrZero (sleepScore e))
   + scoreRules.alcoholDeviationPerWeek
       (valueOrZero (alcoholDeviationPerWeek e))
   + scoreRules.avgStepsPerDay (valueOrZero (avgStepsPerDay e))
   + scoreRules.emergencyFundMonths (valueOrZero (emergencyFundMonths e))
   + scoreRules.pipelineActionsPerWeek
       (valueOrZero (pipelineActionsPerWeek e)))%Z.
Proof. reflexivity. Qed.

Lemma deriveWeek_streaks st e :
  fst (deriveWeek st e) =
  {| sleepStreak := if sleepLow e then sleepStreak st + 1 else 0;
     contactStreak := if contactZero e then contactStreak st + 1 else 0;
     noIncomeStreak := if incomeZero e then noIncomeStreak st + 1 else 0 |}.
Proof. reflexivity. Qed.

Lemma deriveWeek_autoFlags st e :
  autoFlags (snd (deriveWeek st e)) =
  {| sleep := 2 <=? sleepStreak (fst (deriveWeek st e));
     contacts := 2 <=? contactStreak (fst (deriveWeek st e));
     noIncome := 8 <=? noIncomeStreak (fst (deriveWeek st e)) |}.
Proof. reflexivity. Qed.

Lemma deriveWeek_overallRedFlag st e :
  let d := snd (deriveWeek st e) in
  overallRedFlag d =
  isTrue (manualRedFlag e) || isTrue (paymentRedFlag e)
  || (sleep (autoFlags d) || (contacts (autoFlags d)
      || (noIncome (autoFlags d) || false))).
Proof. reflexivity. Qed.

Lemma deriveWeek_grade st e :
  let d := snd (deriveWeek st e) in
  grade d =
  if overallRedFlag d then C
  else if (13 <=? totalScore d)%Z then A
  else if (8 <=? totalScore d)%Z then B else C.
Proof. reflexivity. Qed.

Lemma deriveWeek_emojiLabel st e :
  let d := snd (deriveWeek st e) in
  emojiLabel d =
  if overallRedFlag d then emojiMap C
  else emojiMap (if (13 <=? totalScore d)%Z then A
                 else if (8 <=? totalScore d)%Z then B else C).
Proof. reflexivity. Qed.

(* ---------------------------------------------------------------- *)
(** ** Scoring rules *)

Lemma geq_atLeast v c : geq v c = true <-> atLeast v c.
Proof.
  destruct v; simpl; try (split; [discriminate | tauto]); try tauto.
  apply Qle_bool_iff.
Qed.

Lemma strictEq_exactly v c : strictEq v c = true <-> exactly v c.
Proof.
  destruct v; simpl; try (split; [discriminate | tauto]).
  apply Qeq_bool_iff.
Qed.

Lemma atLeast_weaken v two one :
  (one <= two)%Q -> atLeast v two -> atLeast v one.
Proof.
  destruct v; simpl; auto.
  intros H1 H2. eapply Qle_trans; eassumption.
Qed.

Lemma threshold_rule two one v :
  (one <= two)%Q ->
  thresholdRow two one v
    (if geq v two then 2%Z else if geq v one then 1%Z else 0%Z).
Proof.
  intros Hle.
  destruct (geq v two) eqn:H2; [| destruct (geq v one) eqn:H1].
  - apply geq_atLeast in H2.
    repeat split; intros; try tauto.
    exfalso. eauto using atLeast_weaken.
  - apply geq_atLeast in H1.
    repeat split; intros; try tauto.
    apply geq_atLeast in H. congruence.
  - repeat split; intros; try reflexivity.
    + apply geq_atLeast in H. congruence.
    + apply geq_atLeast in H0. congruence.
Qed.

Lemma discrete_rule v :
  discreteRow v
    (if strictEq v 0 then 2%Z else if strictEq v 1 then 1%Z else 0%Z).
Proof.
  destruct (strictEq v 0) eqn:H0; [| destruct (strictEq v 1) eqn:H1].
  - apply strictEq_exactly in H0.
    repeat split; intros; try tauto.
    destruct v; simpl in *; try tauto.
    rewrite H0 in H. discriminate H.
  - repeat split; intros; try reflexivity.
    + apply strictEq_exactly in H. congruence.
    + apply strictEq_exactly in H1. tauto.
  - repeat split; intros; try reflexivity.
    + apply strictEq_exactly in H. congruence.
    + apply strictEq_exactly in H. congruence.
Qed.

Lemma threshold_range two one v :
  (0 <= (if geq v two then 2 else if geq v one then 1 else 0) <= 2)%Z.
Proof. destruct (geq v two), (geq v one); lia. Qed.

Lemma discrete_range v :
  (0 <= (if strictEq v 0 then 2 else if strictEq v 1 then 1 else 0) <= 2)%Z.
Proof. destruct (strictEq v 0), (strictEq v 1); lia. Qed.

Lemma totalScore_range st e :
  (0 <= totalScore (snd (deriveWeek st e)) <= 16)%Z.
Proof.
  rewrite deriveWeek_totalScore.
  unfold scoreRules.deepWorkH, scoreRules.playH,
    scoreRules.realContactsPerWeek, scoreRules.sleepScore,
    scoreRules.alcoholDeviationPerWeek, scoreRules.avgStepsPerDay,
    scoreRules.emergencyFundMonths, scoreRules.pipelineActionsPerWeek.
  pose proof (threshold_range 12 6 (valueOrZero (deepWorkH e))).
  pose proof (threshold_range 6 2 (valueOrZero (playH e))).
  pose proof (threshold_range 1 (1 # 2) (valueOrZero (realContactsPerWeek e))).
  pose proof (threshold_range 7 5 (valueOrZero (sleepScore e))).
  pose proof (discrete_range (valueOrZero (alcoholDeviationPerWeek e))).
  pose proof (threshold_range 7000 4000 (valueOrZero (avgStepsPerDay e))).
  pose proof (threshold_range 12 6 (valueOrZero (emergencyFundMonths e))).
  pose proof (threshold_range 2 1 (valueOrZero (pipelineActionsPerWeek e))).
  lia.
Qed.

(* ---------------------------------------------------------------- *)
(** ** The pass over the sorted weeks *)

Lemma mapWeeks_cons st e rest :
  mapWeeks st (e :: rest) =
  snd (deriveWeek st e) :: mapWeeks (fst (deriveWeek st e)) rest.
Proof. cbn [mapWeeks]. now destruct (deriveWeek st e). Qed.

Lemma mapWeeks_length st weeks :
  List.length (mapWeeks st weeks) = List.length weeks.
Proof.
  revert st. induction weeks as [| e rest IH]; intros st.
  - reflexivity.
  - rewrite mapWeeks_cons. cbn [List.length]. now rewrite IH.
Qed.

Lemma mapWeeks_entries st weeks : map entry (mapWeeks st weeks) = weeks.
Proof.
  revert st. induction weeks as [| e rest IH]; intros st.
  - reflexivity.
  - rewrite mapWeeks_cons. cbn [map].
    now rewrite IH, deriveWeek_entry.
Qed.

Lemma mapWeeks_In st weeks d :
  In d (mapWeeks st weeks) ->
  exists st' e, In e weeks /\ d = snd (deriveWeek st' e).
Proof.
  revert st. induction weeks as [| e rest IH]; intros st.
  - intros [].
  - rewrite mapWeeks_cons. intros [<- | Hin].
    + exists st, e. split; [now left | reflexivity].
    + destruct (IH _ Hin) as (st'' & e' & He' & ->).
      exists st'', e'. split; [now right | reflexivity].
Qed.

Lemma In_computeDerivedWeeks entries d :
  In d (computeDerivedWeeks entries) ->
  exists st, d = snd (deriveWeek st (entry d)).
Proof.
  intros Hin. apply mapWeeks_In in Hin.
  destruct Hin as (st & e & _ & ->). now exists st.
Qed.

(** C3. For every derived week, each of the eight sub-scores is the value
    of its row of the scoring table, with inclusive thresholds (deep work
    12/6, play 6/2, real contacts 1/0.5, sleep 7/5, steps 7000/4000,
    emergency fund 12/6, pipeline actions 2/1; alcohol deviation 2 at
    exactly 0, 1 at exactly 1), an absent metric being read as zero;
    [totalScore] is the sum of these eight sub-scores; and it is the same
    for any entry with the same eight metrics (absent or zero alike),
    whatever its [incomeJPY], its flags and the streaks so far. *)
Theorem totalScore_sums_table_rows entries d :
  In d (computeDerivedWeeks entries) ->
  let e := entry d in
  thresholdRow 12 6 (metric deepWorkH e)
    (scoreRules.deepWorkH (metric deepWorkH e))
  /\ thresholdRow 6 2 (metric playH e) (scoreRules.playH (metric playH e))
  /\ thresholdRow 1 (1 # 2) (metric realContactsPerWeek e)
       (scoreRules.realContactsPerWeek (metric realContactsPerWeek e))
  /\ thresholdRow 7 5 (metric sleepScore e)
       (scoreRules.sleepScore (metric sleepScore e))
  /\ discreteRow (metric alcoholDeviationPerWeek e)
       (scoreRules.alcoholDeviationPerWeek (metric alcoholDeviationPerWeek e))
  /\ thresholdRow 7000 4000 (metric avgStepsPerDay e)
       (scoreRules.avgStepsPerDay (metric avgStepsPerDay e))
  /\ thresholdRow 12 6 (metric emergencyFundMonths e)
       (scoreRules.emergencyFundMonths (metric emergencyFundMonths e))
  /\ thresholdRow 2 1 (metric pipelineActionsPerWeek e)
       (scoreRules.pipelineActionsPerWeek (metric pipelineActionsPerWeek e))
  /\ totalScore d =
     (scoreRules.deepWorkH (metric deepWorkH e)
      + scoreRules.playH (metric playH e)
      + scoreRules.realContactsPerWeek (metric realContactsPerWeek e)
      + scoreRules.sleepScore (metric sleepScore e)
      + scoreRules.alcoholDeviationPerWeek (metric alcoholDeviationPerWeek e)
      + scoreRules.avgStepsPerDay (metric avgStepsPerDay e)
      + scoreRules.emergencyFundMonths (metric emergencyFundMonths e)
      + scoreRules.pipelineActionsPerWeek (metric pipelineActionsPerWeek e))%Z
  /\ (forall st e', sameScoredMetrics e e' ->
        totalScore (snd (deriveWeek st e')) = totalScore d).
Proof.
  intros Hin. apply mapWeeks_In in Hin.
  destruct Hin as (st & e & _ & ->).
  cbv zeta. rewrite deriveWeek_entry.
  repeat match goal with
         | |- thresholdRow _ _ _ _ /\ _ =>
             split; [apply threshold_rule; discriminate |]
         | |- discreteRow _ _ /\ _ => split; [apply discrete_rule |]
         end.
  split.
  - apply deriveWeek_totalScore.
  - intros st' e' Hsame.
    rewrite !deriveWeek_totalScore.
    unfold sameScoredMetrics, scoredFields in Hsame.
    repeat match goal with
           | H : Forall _ (_ :: _) |- _ => inversion_clear H
           end.
    unfold metric in *. unfold valueOrZero. congruence.
Qed.

(** C2. For every derived week: [totalScore] lies in 0..16;
    [overallRedFlag] holds exactly when [manualRedFlag] is true,
    [paymentRedFlag] is true, or one of the three auto-flags is true;
    the grade is A exactly when [totalScore >= 13] without red flag, B
    exactly when [8 <= totalScore < 13] without red flag, and C in every
    other case; the emoji label is that of the grade, hence the label of
    C whenever [overallRedFlag] holds, whatever the score. *)
Theorem grade_and_red_flag entries d :
  In d (computeDerivedWeeks entries) ->
  (0 <= totalScore d <= 16)%Z
  /\ (overallRedFlag d = true <->
      manualRedFlag (entry d) = Some true
      \/ paymentRedFlag (entry d) = Some true
      \/ sleep (autoFlags d) = true
      \/ contacts (autoFlags d) = true
      \/ noIncome (autoFlags d) = true)
  /\ (grade d = A <-> (13 <= totalScore d)%Z /\ overallRedFlag d = false)
  /\ (grade d = B <->
      (8 <= totalScore d < 13)%Z /\ overallRedFlag d = false)
  /\ (grade d = C <->
      ~ ((13 <= totalScore d)%Z /\ overallRedFlag d = false)
      /\ ~ ((8 <= totalScore d < 13)%Z /\ overallRedFlag d = false))
  /\ emojiLabel d = emojiMap (grade d)
  /\ (overallRedFlag d = true -> emojiLabel d = emojiMap C).
Proof.
  intros Hin.
  destruct (In_computeDerivedWeeks _ _ Hin) as [st Hd].
  pose proof (totalScore_range st (entry d)) as Hrange.
  pose proof (deriveWeek_overallRedFlag st (entry d)) as Hflag.
  pose proof (deriveWeek_grade st (entry d)) as Hgrade.
  pose proof (deriveWeek_emojiLabel st (entry d)) as Hlabel.
  cbv zeta in Hflag, Hgrade, Hlabel. rewrite <- Hd in *.
  split; [exact Hrange |]. split.
  - rewrite Hflag. unfold isTrue.
    destruct (manualRedFlag (entry d)) as [[|]|],
      (paymentRedFlag (entry d)) as [[|]|],
      (sleep (autoFlags d)), (contacts (autoFlags d)),
      (noIncome (autoFlags d)); simpl;
      intuition (try discriminate; try reflexivity).
  - rewrite Hlabel, Hgrade.
    destruct (overallRedFlag d);
      destruct (13 <=? totalScore d)%Z eqn:H13;
      destruct (8 <=? totalScore d)%Z eqn:H8;
      rewrite ?Z.leb_le, ?Z.leb_gt in *;
      repeat split; intros; try discriminate; try reflexivity;
      try lia; intuition (try discriminate; try lia).
Qed.


(* ---------------------------------------------------------------- *)
(** ** Week ordering: the sort keeps every entry *)

Lemma insertEntry_perm e sorted :
  Permutation (insertEntry e sorted) (e :: sorted).
Proof.
  induction sorted as [| y rest IH]; cbn [insertEntry].
  - apply Permutation_refl.
  - destruct (localeCompare (weekStart y) (weekStart e));
      try apply Permutation_refl.
    eapply Permutation_trans; [apply perm_skip, IH | apply perm_swap].
Qed.

Lemma sortEntries_perm entries : Permutation (sortEntries entries) entries.
Proof.
  induction entries as [| e rest IH]; cbn [sortEntries fold_right].
  - apply perm_nil.
  - eapply Permutation_trans; [apply insertEntry_perm |].
    apply perm_skip, IH.
Qed.

Lemma sortEntries_length entries :
  List.length (sortEntries entries) = List.length entries.
Proof. apply Permutation_length, sortEntries_perm. Qed.

(* ---------------------------------------------------------------- *)
(** ** Streak counters are run lengths *)

Lemma runEnding_snoc fails weeks e :
  runEnding fails (weeks ++ [e]) =
  if fails e then S (runEnding fails weeks) else 0.
Proof. unfold runEnding. now rewrite rev_app_distr. Qed.

Lemma streaksFrom_snoc st weeks e :
  streaksFrom st (weeks ++ [e]) = fst (deriveWeek (streaksFrom st weeks) e).
Proof. unfold streaksFrom. now rewrite fold_left_app. Qed.

Lemma streaksAfter_run weeks :
  streaksAfter weeks =
  {| sleepStreak := runEnding sleepLow weeks;
     contactStreak := runEnding contactZero weeks;
     noIncomeStreak := runEnding incomeZero weeks |}.
Proof.
  unfold streaksAfter.
  induction weeks as [| e weeks IH] using rev_ind.
  - reflexivity.
  - rewrite streaksFrom_snoc, deriveWeek_streaks, IH, !runEnding_snoc.
    cbn [sleepStreak contactStreak noIncomeStreak].
    rewrite !Nat.add_1_r. reflexivity.
Qed.

Lemma leadingRun_window fails weeks k :
  k <= leadingRun fails weeks <->
  exists window rest,
    weeks = window ++ rest
    /\ List.length window = k
    /\ forallb fails window = true.
Proof.
  split.
  - revert k. induction weeks as [| e weeks IH]; intros k Hk.
    + cbn [leadingRun] in Hk. exists [], []. repeat split. cbn. lia.
    + cbn [leadingRun] in Hk. destruct k as [| k].
      * exists [], (e :: weeks). repeat split.
      * destruct (fails e) eqn:He; [| lia].
        destruct (IH k) as (window & rest & -> & <- & Hall); [lia |].
        exists (e :: window), rest. repeat split.
        cbn [forallb]. now rewrite He.
  - intros (window & rest & -> & <- & Hall).
    induction window as [| e window IH]; cbn [List.length]; [lia |].
    cbn [forallb] in Hall. apply andb_true_iff in Hall.
    destruct Hall as [He Hall].
    cbn [app leadingRun]. rewrite He. specialize (IH Hall). lia.
Qed.

Lemma forallb_rev (f : WeekEntry -> bool) l :
  forallb f (rev l) = forallb f l.
Proof.
  induction l as [| x l IH]; [reflexivity |].
  cbn [rev]. rewrite forallb_app, IH. cbn [forallb].
  rewrite andb_true_r. apply andb_comm.
Qed.

Lemma runEnding_window fails weeks k :
  k <= runEnding fails weeks <->
  exists earlier window,
    weeks = earlier ++ window
    /\ List.length window = k
    /\ forallb fails window = true.
Proof.
  unfold runEnding. rewrite leadingRun_window. split.
  - intros (window & rest & Hrev & Hlen & Hall).
    exists (rev rest), (rev window). split; [| split].
    + now rewrite <- rev_app_distr, <- Hrev, rev_involutive.
    + now rewrite length_rev.
    + now rewrite forallb_rev.
  - intros (earlier & window & -> & Hlen & Hall).
    exists (rev window), (rev earlier). split; [| split].
    + apply rev_app_distr.
    + now rewrite length_rev.
    + now rewrite forallb_rev.
Qed.

Lemma leq_atMost v c : leq v c = true <-> atMost v c.
Proof.
  destruct v; simpl; try (split; [discriminate | tauto]); try tauto.
  apply Qle_bool_iff.
Qed.

Lemma sleepLow_lowSleepWeek e : sleepLow e = true <-> lowSleepWeek e.
Proof. apply leq_atMost. Qed.

Lemma contactZero_noContactWeek e :
  contactZero e = true <-> noContactWeek e.
Proof. apply leq_atMost. Qed.

Lemma incomeZero_noIncomeWeek e : incomeZero e = true <-> noIncomeWeek e.
Proof. apply leq_atMost. Qed.

Lemma forallb_fails (fails : WeekEntry -> bool) (P : WeekEntry -> Prop) l :
  (forall e, fails e = true <-> P e) ->
  forallb fails l = true <-> Forall P l.
Proof.
  intros Hfails. rewrite forallb_forall, Forall_forall.
  split; intros Hall e He; apply Hfails, Hall, He.
Qed.

Lemma runEnding_atLeast (fails : WeekEntry -> bool) (P : WeekEntry -> Prop)
  weeks k :
  (forall e, fails e = true <-> P e) ->
  k <= runEnding fails weeks <-> runAtLeast P weeks k.
Proof.
  intros Hfails. rewrite runEnding_window. unfold runAtLeast.
  split; intros (earlier & window & Heq & Hlen & Hall);
    exists earlier, window; (split; [exact Heq |]); (split; [exact Hlen |]);
    now apply (forallb_fails fails P).
Qed.

Lemma runEnding_reset (fails : WeekEntry -> bool) (P : WeekEntry -> Prop)
  weeks e :
  (forall e, fails e = true <-> P e) ->
  ~ P e -> runEnding fails (weeks ++ [e]) = 0.
Proof.
  intros Hfails Hnot. rewrite runEnding_snoc.
  destruct (fails e) eqn:He; [| reflexivity].
  exfalso. apply Hnot, Hfails, He.
Qed.

Lemma runEnding_step (fails : WeekEntry -> bool) (P : WeekEntry -> Prop)
  weeks e :
  (forall e, fails e = true <-> P e) ->
  P e -> runEnding fails (weeks ++ [e]) = S (runEnding fails weeks).
Proof.
  intros Hfails He. rewrite runEnding_snoc.
  apply Hfails in He. now rewrite He.
Qed.

Lemma mapWeeks_app st weeks later :
  mapWeeks st (weeks ++ later) =
  mapWeeks st weeks ++ mapWeeks (streaksFrom st weeks) later.
Proof.
  revert st. induction weeks as [| e rest IH]; intros st.
  - reflexivity.
  - rewrite <- app_comm_cons, !mapWeeks_cons, IH. reflexivity.
Qed.

Lemma mapWeeks_nth st weeks e later :
  nth_error (mapWeeks st (weeks ++ e :: later)) (List.length weeks) =
  Some (snd (deriveWeek (streaksFrom st weeks) e)).
Proof.
  rewrite mapWeeks_app, nth_error_app2; rewrite mapWeeks_length; [| lia].
  rewrite Nat.sub_diag, mapWeeks_cons. reflexivity.
Qed.

(** C1. In a derivation, whose weeks are processed in sorted order, the
    week at any position gets each auto-flag exactly when the run of
    consecutive weeks failing that flag's condition and ending at this week
    (this week and the weeks immediately before it) is long enough: at
    least 2 weeks with a sleep score, absence read as zero, of at most 4;
    at least 2 weeks with at most 0 real contacts; at least 8 weeks with an
    income of at most 0.  Each flag is the comparison of its counter with
    that length, each counter is the length of the longest such run, it
    grows by one on a failing week, and a week that does not fail brings
    it back to 0. *)
Theorem autoFlags_are_run_lengths entries weeks e later :
  sortEntries entries = weeks ++ e :: later ->
  exists d,
    nth_error (computeDerivedWeeks entries) (List.length weeks) = Some d
    /\ entry d = e
    /\ (sleep (autoFlags d) = true <->
        runAtLeast lowSleepWeek (weeks ++ [e]) 2)
    /\ (contacts (autoFlags d) = true <->
        runAtLeast noContactWeek (weeks ++ [e]) 2)
    /\ (noIncome (autoFlags d) = true <->
        runAtLeast noIncomeWeek (weeks ++ [e]) 8)
    /\ sleep (autoFlags d) =
       (2 <=? sleepStreak (streaksAfter (weeks ++ [e])))
    /\ contacts (autoFlags d) =
       (2 <=? contactStreak (streaksAfter (weeks ++ [e])))
    /\ noIncome (autoFlags d) =
       (8 <=? noIncomeStreak (streaksAfter (weeks ++ [e])))
    /\ (forall k,
          k <= sleepStreak (streaksAfter (weeks ++ [e])) <->
          runAtLeast lowSleepWeek (weeks ++ [e]) k)
    /\ (forall k,
          k <= contactStreak (streaksAfter (weeks ++ [e])) <->
          runAtLeast noContactWeek (weeks ++ [e]) k)
    /\ (forall k,
          k <= noIncomeStreak (streaksAfter (weeks ++ [e])) <->
          runAtLeast noIncomeWeek (weeks ++ [e]) k)
    /\ (lowSleepWeek e ->
        sleepStreak (streaksAfter (weeks ++ [e])) =
        S (sleepStreak (streaksAfter weeks)))
    /\ (noContactWeek e ->
        contactStreak (streaksAfter (weeks ++ [e])) =
        S (contactStreak (streaksAfter weeks)))
    /\ (noIncomeWeek e ->
        noIncomeStreak (streaksAfter (weeks ++ [e])) =
        S (noIncomeStreak (streaksAfter weeks)))
    /\ (~ lowSleepWeek e ->
        sleepStreak (streaksAfter (weeks ++ [e])) = 0)
    /\ (~ noContactWeek e ->
        contactStreak (streaksAfter (weeks ++ [e])) = 0)
    /\ (~ noIncomeWeek e ->
        noIncomeStreak (streaksAfter (weeks ++ [e])) = 0).
Proof.
  intros Hsorted.
  exists (snd (deriveWeek (streaksAfter weeks) e)).
  split.
  { unfold computeDerivedWeeks. rewrite Hsorted. apply mapWeeks_nth. }
  split; [apply deriveWeek_entry |].
  rewrite deriveWeek_autoFlags.
  replace (fst (deriveWeek (streaksAfter weeks) e))
    with (streaksAfter (weeks ++ [e]))
    by (unfold streaksAfter; apply streaksFrom_snoc).
  rewrite (streaksAfter_run (weeks ++ [e])), (streaksAfter_run weeks).
  cbn [sleep contacts noIncome sleepStreak contactStreak noIncomeStreak].
  rewrite !Nat.leb_le.
  split; [apply runEnding_atLeast, sleepLow_lowSleepWeek |].
  split; [apply runEnding_atLeast, contactZero_noContactWeek |].
  split; [apply runEnding_atLeast, incomeZero_noIncomeWeek |].
  split; [reflexivity |]. split; [reflexivity |]. split; [reflexivity |].
  split; [intros k; apply runEnding_atLeast, sleepLow_lowSleepWeek |].
  split; [intros k; apply runEnding_atLeast, contactZero_noContactWeek |].
  split; [intros k; apply runEnding_atLeast, incomeZero_noIncomeWeek |].
  split; [apply runEnding_step, sleepLow_lowSleepWeek |].
  split; [apply runEnding_step, contactZero_noContactWeek |].
  split; [apply runEnding_step, incomeZero_noIncomeWeek |].
  split; [apply runEnding_reset, sleepLow_lowSleepWeek |].
  split; [apply runEnding_reset, contactZero_noContactWeek |].
  apply runEnding_reset, incomeZero_noIncomeWeek.
Qed.

(** C8. A derivation is parallel to its sorted input: it has as many
    records as the input has entries, the sorted input holds exactly the
    entries of the input, and the record at each index carries, field for
    field, the entry at that index of the sorted input. *)
Theorem derivation_parallel_to_sorted_input entries :
  List.length (computeDerivedWeeks entries) = List.length entries
  /\ Permutation (sortEntries entries) entries
  /\ map entry (computeDerivedWeeks entries) = sortEntries entries
  /\ forall i,
       option_map entry (nth_error (computeDerivedWeeks entries) i) =
       nth_error (sortEntries entries) i.
Proof.
  unfold computeDerivedWeeks.
  split; [now rewrite mapWeeks_length, sortEntries_length |].
  split; [apply sortEntries_perm |].
  split; [apply mapWeeks_entries |].
  intros i. rewrite <- nth_error_map. now rewrite mapWeeks_entries.
Qed.


(* ---------------------------------------------------------------- *)
(** ** Field coercions *)

Lemma str_eqb_eq a b : str_eqb a b = true <-> a = b.
Proof.
  revert b. induction a as [| x a IH]; intros [| y b]; simpl;
    try (split; [discriminate | discriminate]); try tauto.
  rewrite andb_true_iff, N.eqb_eq, IH.
  split; [intros [-> ->]; reflexivity | intros [= -> ->]; auto].
Qed.

Lemma str_eqb_neq a b : str_eqb a b = false <-> a <> b.
Proof.
  rewrite <- str_eqb_eq. destruct (str_eqb a b); split; congruence.
Qed.

Lemma toNumericValue_coerced v : coercedNumber v (toNumericValue v).
Proof.
  destruct v as [| | b | n | s | items | props]; simpl; try reflexivity.
  - destruct (isFinite n); split; intros; congruence.
  - destruct (str_eqb (trim s) []) eqn:He.
    + apply str_eqb_eq in He. split; intros; congruence.
    + apply str_eqb_neq in He.
      destruct (isFinite (Number (trim s))); split; intros;
        try reflexivity; try congruence.
      destruct H; congruence.
Qed.

Lemma toBooleanValue_coerced v : coercedBoolean v (toBooleanValue v).
Proof.
  destruct v as [| | b | n | s | items | props]; try reflexivity.
  unfold coercedBoolean, matchesIgnoringCase, toBooleanValue.
  set (normalized := toLowerCase (trim s)).
  destruct (str_eqb normalized (lit "true")) eqn:Ht.
  - apply str_eqb_eq in Ht. rewrite Ht.
    repeat split; intros; try reflexivity; try discriminate.
    congruence.
  - apply str_eqb_neq in Ht.
    destruct (str_eqb normalized (lit "false")) eqn:Hf.
    + apply str_eqb_eq in Hf.
      repeat split; intros; try reflexivity; congruence.
    + apply str_eqb_neq in Hf.
      repeat split; intros; try reflexivity; congruence.
Qed.

Lemma sanitizeItem_record props ws :
  lookup key.weekStart props = Some (VString ws) ->
  exists e, sanitizeItem (VObject props) = Some e /\ weekStart e = ws.
Proof.
  intros Hws. unfold sanitizeItem.
  cbn [Boolean typeofObject negb orb getProp]. rewrite Hws.
  eexists. split; reflexivity.
Qed.

(** C5 (amended). An element that is a record with a string [weekStart] is
    accepted whatever its other fields hold, and in the entry made from
    it: each of the nine numeric fields is the finite number read, or the
    finite number got from the trimmed string when that string is not
    empty, and absent otherwise; each of the two boolean fields is the
    boolean read, or the boolean named, in any letter case, by the
    trimmed string, and otherwise the truthiness of the value read (false
    for an absent one); [notes] is the string read, or the empty
    string. *)
Theorem fields_are_coerced_never_rejected props ws :
  lookup key.weekStart props = Some (VString ws) ->
  exists e,
    sanitizeItem (VObject props) = Some e
    /\ weekStart e = ws
    /\ (let read k := getProp (VObject props) k in
        coercedNumber (read key.deepWorkH) (deepWorkH e)
        /\ coercedNumber (read key.playH) (playH e)
        /\ coercedNumber (read key.realContactsPerWeek)
             (realContactsPerWeek e)
        /\ coercedNumber (read key.sleepScore) (sleepScore e)
        /\ coercedNumber (read key.alcoholDeviationPerWeek)
             (alcoholDeviationPerWeek e)
        /\ coercedNumber (read key.avgStepsPerDay) (avgStepsPerDay e)
        /\ coercedNumber (read key.emergencyFundMonths)
             (emergencyFundMonths e)
        /\ coercedNumber (read key.pipelineActionsPerWeek)
             (pipelineActionsPerWeek e)
        /\ coercedNumber (read key.incomeJPY) (incomeJPY e)
        /\ (exists b, manualRedFlag e = Some b
              /\ coercedBoolean (read key.manualRedFlag) b
              /\ (read key.manualRedFlag = VUndefined -> b = false))
        /\ (exists b, paymentRedFlag e = Some b
              /\ coercedBoolean (read key.paymentRedFlag) b
              /\ (read key.paymentRedFlag = VUndefined -> b = false))
        /\ coercedNotes (read key.notes) (notes e)).
Proof.
  intros Hws. unfold sanitizeItem.
  cbn [Boolean typeofObject negb orb]. cbv zeta.
  replace (getProp (VObject props) key.weekStart) with (VString ws)
    by (cbn [getProp]; now rewrite Hws).
  eexists. split; [reflexivity |]. cbn [weekStart deepWorkH playH
    realContactsPerWeek sleepScore alcoholDeviationPerWeek avgStepsPerDay
    emergencyFundMonths pipelineActionsPerWeek incomeJPY manualRedFlag
    paymentRedFlag notes].
  split; [reflexivity |].
  repeat match goal with
         | |- coercedNumber _ _ /\ _ =>
             split; [apply toNumericValue_coerced |]
         end.
  split; [| split].
  - eexists. split; [reflexivity |].
    split; [apply toBooleanValue_coerced | now intros ->].
  - eexists. split; [reflexivity |].
    split; [apply toBooleanValue_coerced | now intros ->].
  - unfold coercedNotes.
    now destruct (getProp (VObject props) key.notes).
Qed.


(* ---------------------------------------------------------------- *)
(** ** The sanitizer loop *)

Lemma sanitizeItem_Some item e :
  sanitizeItem item = Some e -> weekRecord item.
Proof.
  unfold sanitizeItem, weekRecord.
  destruct item as [| | b | n | s | items | props];
    cbn [Boolean typeofObject negb orb getProp];
    rewrite ?orb_true_r; try discriminate.
  destruct (lookup key.weekStart props) as [[| | b | n | s | its | ps] |]
    eqn:Hws; try discriminate.
  intros _. now exists props, s.
Qed.

Lemma sanitizeItem_None item :
  sanitizeItem item = None <-> ~ weekRecord item.
Proof.
  split.
  - intros Hnone (props & ws & -> & Hws).
    destruct (sanitizeItem_record _ _ Hws) as (e & He & _). congruence.
  - intros Hnot. destruct (sanitizeItem item) as [e |] eqn:He; [| reflexivity].
    exfalso. eauto using sanitizeItem_Some.
Qed.

Lemma sanitizeLoop_Some items sanitized out :
  sanitizeLoop items sanitized = Some out ->
  map Some out = map Some sanitized ++ map sanitizeItem items.
Proof.
  revert sanitized. induction items as [| item rest IH]; intros sanitized.
  - cbn [sanitizeLoop map]. intros [= ->]. now rewrite app_nil_r.
  - cbn [sanitizeLoop map].
    destruct (sanitizeItem item) as [e |] eqn:He; [| discriminate].
    intros Hloop. rewrite (IH _ Hloop), map_app, <- app_assoc.
    reflexivity.
Qed.

Lemma sanitizeLoop_None items sanitized :
  sanitizeLoop items sanitized = None <->
  Exists (fun item => ~ weekRecord item) items.
Proof.
  revert sanitized. induction items as [| item rest IH]; intros sanitized;
    cbn [sanitizeLoop].
  - split; [discriminate | intros H; inversion H].
  - destruct (sanitizeItem item) as [e |] eqn:He.
    + rewrite IH. split; [now right |].
      intros H. inversion H as [? ? Hbad | ? ? Hlater]; subst; [| assumption].
      apply sanitizeItem_None in Hbad. congruence.
    + split; [| reflexivity].
      intros _. left. now apply sanitizeItem_None.
Qed.

Lemma StronglySorted_weaken (R R' : WeekEntry -> WeekEntry -> Prop) l :
  (forall x y, In x l -> In y l -> R x y -> R' x y) ->
  StronglySorted R l -> StronglySorted R' l.
Proof.
  intros Himp Hsorted. induction Hsorted as [| x l Hl IH Hx].
  - constructor.
  - constructor.
    + apply IH. intros; apply Himp; simpl; auto.
    + rewrite Forall_forall in *. intros y Hy.
      apply Himp; simpl; auto.
Qed.

(* ---------------------------------------------------------------- *)
(** ** The stored representation *)

Lemma lookup_absent (k : jsstring) (props : list (jsstring * value)) :
  ~ In k (map fst props) -> lookup k props = None.
Proof.
  induction props as [| [k' v] rest IH]; [reflexivity |].
  cbn [map fst In lookup]. intros Hnot.
  destruct (str_eqb k k') eqn:Hk.
  - apply str_eqb_eq in Hk. subst. tauto.
  - apply IH. tauto.
Qed.

Lemma flat_viaJSON v :
  flat v ->
  match JSON_stringify v with
  | Some j => v <> VUndefined /\ JSON_parse j = v
  | None => v = VUndefined
  end.
Proof.
  destruct v as [| | b | [q | | |] | s | items | props]; simpl;
    try tauto; try discriminate; intros _; split; congruence.
Qed.

Lemma setMember_fresh k v (props : list (jsstring * value)) :
  ~ In k (map fst props) -> setMember k v props = props ++ [(k, v)].
Proof.
  induction props as [| [k' v'] rest IH]; [reflexivity |].
  cbn [map fst In setMember app]. intros Hnot.
  destruct (str_eqb k k') eqn:Hk.
  - apply str_eqb_eq in Hk. subst. exfalso. apply Hnot. now left.
  - rewrite IH; [reflexivity |]. intros Hin. apply Hnot. now right.
Qed.

Lemma objectOf_from (members props : list (jsstring * value)) :
  NoDup (map fst (props ++ members)) ->
  fold_left (fun props m => setMember (fst m) (snd m) props) members props
  = props ++ members.
Proof.
  revert props.
  induction members as [| [k v] rest IH]; intros props Hnodup.
  - cbn [fold_left]. now rewrite app_nil_r.
  - cbn [fold_left fst snd].
    rewrite setMember_fresh.
    + rewrite IH; rewrite <- app_assoc; [reflexivity | exact Hnodup].
    + rewrite map_app in Hnodup. cbn [map fst] in Hnodup.
      apply NoDup_remove_2 in Hnodup.
      intros Hin. apply Hnodup. apply in_or_app. now left.
Qed.

(** Members with distinct names become the properties as they stand. *)
Lemma objectOf_distinct (members : list (jsstring * value)) :
  NoDup (map fst members) -> objectOf members = members.
Proof.
  intros Hnodup. unfold objectOf. now rewrite objectOf_from.
Qed.

(** Of two members with one name the later one is read. *)
Lemma objectOf_last_wins k v v' :
  lookup k (objectOf [(k, v); (k, v')]) = Some v'.
Proof.
  unfold objectOf. cbn [fold_left fst snd setMember].
  destruct (str_eqb k k) eqn:Hk.
  - cbn [lookup]. now rewrite Hk.
  - apply str_eqb_neq in Hk. congruence.
Qed.

Lemma jsonMembers_keys stringify props k :
  In k (map fst (jsonMembers stringify props)) -> In k (map fst props).
Proof.
  induction props as [| [k' v] rest IH]; [trivial |].
  cbn [jsonMembers map fst In].
  destruct (stringify v); cbn [map fst In]; intuition.
Qed.

Lemma jsonMembers_distinct stringify props :
  NoDup (map fst props) -> NoDup (map fst (jsonMembers stringify props)).
Proof.
  induction props as [| [k v] rest IH]; [trivial |].
  cbn [jsonMembers map fst]. intros Hnodup.
  inversion_clear Hnodup as [| ? ? Hfresh Hrest].
  destruct (stringify v); cbn [map fst]; [| now apply IH].
  constructor; [| now apply IH].
  intros Hin. apply Hfresh. revert Hin. apply jsonMembers_keys.
Qed.

Lemma getProp_viaJSON props k :
  NoDup (map fst props) ->
  Forall (fun p => flat (snd p)) props ->
  getProp (viaJSON (VObject props)) k = getProp (VObject props) k.
Proof.
  unfold viaJSON. cbn [JSON_stringify JSON_parse getProp].
  intros Hdistinct.
  rewrite objectOf_distinct
    by (rewrite map_map; cbn [fst];
        now apply (jsonMembers_distinct JSON_stringify)).
  revert Hdistinct.
  induction props as [| [k' v] rest IH]; [reflexivity |].
  cbn [map fst]. intros Hnodup Hflat.
  inversion_clear Hnodup as [| ? ? Hfresh Hrest].
  inversion_clear Hflat as [| ? ? Hv Hflat'].
  specialize (IH Hrest Hflat').
  cbn [jsonMembers lookup]. cbn [snd] in Hv.
  pose proof (flat_viaJSON v Hv) as Hjson.
  destruct (JSON_stringify v) as [j |].
  - destruct Hjson as [_ Hparse].
    cbn [map fst snd lookup]. rewrite Hparse.
    destruct (str_eqb k k'); [reflexivity | exact IH].
  - rewrite IH. subst v.
    destruct (str_eqb k k') eqn:Hk; [| reflexivity].
    apply str_eqb_eq in Hk. subst k'.
    now rewrite (lookup_absent k rest Hfresh).
Qed.

Lemma entryValue_keys e :
  NoDup (map fst match entryValue e with
                 | VObject props => props
                 | _ => []
                 end).
Proof.
  cbn [entryValue map fst]. vm_compute.
  repeat (constructor; [cbn [In]; intuition discriminate |]).
  constructor.
Qed.

Lemma finiteField_flat v : finiteField v -> flat (ofNumber v).
Proof. destruct v; simpl; auto. Qed.

Lemma entryValue_flat e :
  validEntry e ->
  Forall (fun p => flat (snd p))
    match entryValue e with VObject props => props | _ => [] end.
Proof.
  unfold validEntry. intros Hvalid.
  repeat match goal with
         | H : Forall _ (_ :: _) |- _ => inversion_clear H
         end.
  cbn [entryValue].
  repeat (constructor; [cbn [snd]; auto using finiteField_flat |]);
    try constructor.
  - now destruct (manualRedFlag e).
  - now destruct (paymentRedFlag e).
  - now destruct (notes e).
Qed.

Lemma toNumericValue_ofNumber v :
  finiteField v -> toNumericValue (ofNumber v) = v.
Proof. destruct v as [n |]; simpl; [intros -> |]; reflexivity. Qed.

Lemma sanitizeItem_viaJSON e :
  validEntry e ->
  sanitizeItem (viaJSON (entryValue e)) = Some (normalizeAbsent e).
Proof.
  intros Hvalid.
  pose proof (entryValue_keys e) as Hkeys.
  pose proof (entryValue_flat e Hvalid) as Hflat.
  unfold sanitizeItem.
  change (Boolean (viaJSON (entryValue e))) with true.
  change (typeofObject (viaJSON (entryValue e))) with true.
  cbn [negb orb].
  unfold entryValue in Hkeys, Hflat |- * at 1 2 3 4 5 6 7 8 9 10 11 12 13.
  rewrite !(getProp_viaJSON _ _ Hkeys Hflat).
  cbn [getProp lookup str_eqb key.weekStart key.deepWorkH key.playH
       key.realContactsPerWeek key.sleepScore key.alcoholDeviationPerWeek
       key.avgStepsPerDay key.emergencyFundMonths
       key.pipelineActionsPerWeek key.incomeJPY key.manualRedFlag
       key.paymentRedFlag key.notes lit list_ascii_of_string map
       N_of_ascii N.eqb Pos.eqb andb N_of_digits N.add N.mul Pos.add
       Pos.mul Pos.succ].
  unfold validEntry in Hvalid.
  repeat match goal with
         | H : Forall _ (_ :: _) |- _ => inversion_clear H
         end.
  rewrite !toNumericValue_ofNumber by assumption.
  unfold normalizeAbsent. do 2 f_equal.
  - now destruct (manualRedFlag e).
  - now destruct (paymentRedFlag e).
  - now destruct (notes e).
Qed.

Lemma sanitizeLoop_viaJSON entries sanitized :
  Forall validEntry entries ->
  sanitizeLoop (map viaJSON (map entryValue entries)) sanitized =
  Some (sanitized ++ map normalizeAbsent entries).
Proof.
  intros Hvalid. revert sanitized.
  induction Hvalid as [| e rest He Hrest IH]; intros sanitized.
  - cbn [map sanitizeLoop]. now rewrite app_nil_r.
  - cbn [map sanitizeLoop]. rewrite (sanitizeItem_viaJSON e He), IH.
    now rewrite <- app_assoc.
Qed.

Lemma insertEntry_map (f : WeekEntry -> WeekEntry) e sorted :
  (forall x, weekStart (f x) = weekStart x) ->
  insertEntry (f e) (map f sorted) = map f (insertEntry e sorted).
Proof.
  intros Hf. induction sorted as [| y rest IH]; [reflexivity |].
  cbn [map insertEntry]. rewrite !Hf.
  destruct (localeCompare (weekStart y) (weekStart e)); try reflexivity.
  cbn [map]. now rewrite IH.
Qed.

Lemma sortEntries_map (f : WeekEntry -> WeekEntry) entries :
  (forall x, weekStart (f x) = weekStart x) ->
  sortEntries (map f entries) = map f (sortEntries entries).
Proof.
  intros Hf. induction entries as [| e rest IH]; [reflexivity |].
  cbn [map sortEntries fold_right]. fold (sortEntries (map f rest)).
  fold (sortEntries rest). rewrite IH. now apply insertEntry_map.
Qed.

Lemma jsonRoundTrip_array entries :
  jsonRoundTrip entries =
  Some (VArray (map viaJSON (map entryValue entries))).
Proof.
  unfold jsonRoundTrip. cbn [JSON_stringify option_map JSON_parse].
  now rewrite (map_map _ JSON_parse).
Qed.

(* ---------------------------------------------------------------- *)
(** ** The working collection *)

Lemma removeAt_length index prev :
  List.length prev <= S (List.length (removeAt index prev)).
Proof.
  revert index. induction prev as [| e rest IH]; intros [| i];
    cbn [removeAt List.length]; try lia.
  specialize (IH i). lia.
Qed.

Lemma handleDeleteEntry_nonempty index prev :
  prev <> [] -> handleDeleteEntry index prev <> [].
Proof.
  intros Hprev. unfold handleDeleteEntry.
  destruct (List.length prev <=? 1) eqn:Hlen; [assumption |].
  apply Nat.leb_gt in Hlen.
  pose proof (removeAt_length index prev) as Hrem.
  pose proof (sortEntries_length (removeAt index prev)) as Hsort.
  intros Hnil. rewrite Hnil in Hsort. cbn [List.length] in Hsort. lia.
Qed.

Lemma handleDeleteEntry_last index e :
  handleDeleteEntry index [e] = [e].
Proof. reflexivity. Qed.

Lemma loadEntries_nonempty today stored : loadEntries today stored <> [].
Proof.
  unfold loadEntries.
  destruct stored as [parsed |]; [| discriminate].
  destruct (parseStoredEntries parsed) as [[| e rest] |];
    try discriminate.
  intros Hnil.
  pose proof (sortEntries_length (e :: rest)) as Hlen.
  rewrite Hnil in Hlen. discriminate Hlen.
Qed.

(** C9. Importing a file that holds the empty array leaves the
    collection empty: the sanitizer accepts the empty batch, and
    [handleImport] stores its result as it is, whereas [loadEntries]
    puts a fresh empty entry in place of the same result. *)
Theorem import_of_empty_array_empties_collection today prev :
  parseStoredEntries (VArray []) = Some []
  /\ handleImport (Some (VArray [])) prev = []
  /\ loadEntries today (Some (VArray [])) = [createEmptyEntry today].
Proof. repeat split. Qed.

(* ---------------------------------------------------------------- *)
(** ** More on scores and flags *)

Lemma geq_monotone v v' c :
  numLe v v' -> geq v c = true -> geq v' c = true.
Proof.
  destruct v as [q | | |], v' as [q' | | |]; simpl; try contradiction;
    try discriminate; try reflexivity.
  intros Hle Hc. apply Qle_bool_iff in Hc. apply Qle_bool_iff.
  eapply Qle_trans; eassumption.
Qed.

Lemma threshold_monotone two one v v' :
  numLe v v' ->
  ((if geq v two then 2 else if geq v one then 1 else 0)
   <= (if geq v' two then 2 else if geq v' one then 1 else 0))%Z.
Proof.
  intros Hle.
  pose proof (geq_monotone v v' two Hle) as H2.
  pose proof (geq_monotone v v' one Hle) as H1.
  destruct (geq v two); [rewrite H2 by reflexivity; lia |].
  destruct (geq v one); [rewrite H1 by reflexivity |];
    destruct (geq v' two), (geq v' one); lia.
Qed.

(** X1. Raising a metric never lowers its sub-score, for the seven rules
    with thresholds, so a week that is no worse on these seven metrics and
    has the same alcohol deviation has no lower total; the rule of the
    alcohol deviation is monotone in neither direction. *)
Theorem threshold_scores_are_monotone st st' e e' :
  Forall (fun field => numLe (metric field e) (metric field e'))
    [ deepWorkH; playH; realContactsPerWeek; sleepScore; avgStepsPerDay;
      emergencyFundMonths; pipelineActionsPerWeek ] ->
  metric alcoholDeviationPerWeek e = metric alcoholDeviationPerWeek e' ->
  (totalScore (snd (deriveWeek st e))
   <= totalScore (snd (deriveWeek st' e')))%Z
  /\ (scoreRules.alcoholDeviationPerWeek (Finite 0)
      > scoreRules.alcoholDeviationPerWeek (Finite 2))%Z
  /\ (scoreRules.alcoholDeviationPerWeek (Finite (1 # 2))
      < scoreRules.alcoholDeviationPerWeek (Finite 1))%Z.
Proof.
  intros Hle Halc.
  split; [| split; reflexivity].
  inversion_clear Hle as [| ? ? Hdeep Hle1].
  inversion_clear Hle1 as [| ? ? Hplay Hle2].
  inversion_clear Hle2 as [| ? ? Hcontacts Hle3].
  inversion_clear Hle3 as [| ? ? Hsleep Hle4].
  inversion_clear Hle4 as [| ? ? Hsteps Hle5].
  inversion_clear Hle5 as [| ? ? Hfund Hle6].
  inversion_clear Hle6 as [| ? ? Hpipeline _].
  rewrite !deriveWeek_totalScore.
  change (valueOrZero (alcoholDeviationPerWeek e)
          = valueOrZero (alcoholDeviationPerWeek e')) in Halc.
  rewrite Halc.
  pose proof (threshold_monotone 12 6 _ _ Hdeep).
  pose proof (threshold_monotone 6 2 _ _ Hplay).
  pose proof (threshold_monotone 1 (1 # 2) _ _ Hcontacts).
  pose proof (threshold_monotone 7 5 _ _ Hsleep).
  pose proof (threshold_monotone 7000 4000 _ _ Hsteps).
  pose proof (threshold_monotone 12 6 _ _ Hfund).
  pose proof (threshold_monotone 2 1 _ _ Hpipeline).
  unfold scoreRules.deepWorkH, scoreRules.playH,
    scoreRules.realContactsPerWeek, scoreRules.sleepScore,
    scoreRules.avgStepsPerDay, scoreRules.emergencyFundMonths,
    scoreRules.pipelineActionsPerWeek.
  unfold metric in *. unfold valueOrZero in *.
  lia.
Qed.

Lemma window_fits (earlier window weeks : list WeekEntry) e k :
  weeks ++ [e] = earlier ++ window ->
  List.length window = S k ->
  k <= List.length weeks.
Proof.
  intros Heq Hlen. apply (f_equal (@List.length _)) in Heq.
  rewrite !length_app in Heq. cbn [List.length] in Heq. lia.
Qed.

(** X2. A flag is a look-back over a fixed number of weeks: the week at
    any position of the sorted input is flagged exactly when it and the
    weeks just before it, 2 in all for sleep and for contacts and 8 for
    income, all fail the condition of the flag.  So the first week is
    never flagged for sleep or contacts, and none of the first seven for
    income. *)
Theorem flags_look_back_over_fixed_windows entries weeks e later :
  sortEntries entries = weeks ++ e :: later ->
  exists d,
    nth_error (computeDerivedWeeks entries) (List.length weeks) = Some d
    /\ (sleep (autoFlags d) = true <->
        exists earlier window,
          weeks ++ [e] = earlier ++ window
          /\ List.length window = 2
          /\ forallb sleepLow window = true)
    /\ (contacts (autoFlags d) = true <->
        exists earlier window,
          weeks ++ [e] = earlier ++ window
          /\ List.length window = 2
          /\ forallb contactZero window = true)
    /\ (noIncome (autoFlags d) = true <->
        exists earlier window,
          weeks ++ [e] = earlier ++ window
          /\ List.length window = 8
          /\ forallb incomeZero window = true)
    /\ (sleep (autoFlags d) = true -> 1 <= List.length weeks)
    /\ (contacts (autoFlags d) = true -> 1 <= List.length weeks)
    /\ (noIncome (autoFlags d) = true -> 7 <= List.length weeks).
Proof.
  intros Hsorted.
  exists (snd (deriveWeek (streaksAfter weeks) e)).
  split.
  { unfold computeDerivedWeeks. rewrite Hsorted. apply mapWeeks_nth. }
  rewrite deriveWeek_autoFlags.
  replace (fst (deriveWeek (streaksAfter weeks) e))
    with (streaksAfter (weeks ++ [e]))
    by (unfold streaksAfter; apply streaksFrom_snoc).
  rewrite (streaksAfter_run (weeks ++ [e])).
  cbn [sleep contacts noIncome sleepStreak contactStreak noIncomeStreak].
  rewrite !Nat.leb_le, !runEnding_window.
  split; [reflexivity |]. split; [reflexivity |]. split; [reflexivity |].
  split; [| split]; intros (earlier & window & Heq & Hlen & _);
    eapply window_fits; eassumption.
Qed.

(** X3. Weeks that sort later never change the records of earlier weeks:
    when the sorted input of a derivation starts with the sorted input of
    another, its records start with the records of that other. *)
Theorem earlier_records_ignore_later_weeks entries entries' later :
  sortEntries entries' = sortEntries entries ++ later ->
  firstn (List.length entries) (computeDerivedWeeks entries') =
  computeDerivedWeeks entries.
Proof.
  intros Hprefix. unfold computeDerivedWeeks.
  rewrite Hprefix, mapWeeks_app.
  rewrite <- (sortEntries_length entries).
  rewrite <- (mapWeeks_length zeroStreaks (sortEntries entries)).
  rewrite firstn_app, Nat.sub_diag, firstn_all. cbn [firstn].
  apply app_nil_r.
Qed.

(* ---------------------------------------------------------------- *)
(** ** What the page shows *)

(** X4. The grade column never shows a grade that a red flag has
    overridden: for a derived week it shows the red-flag text exactly when
    the week has a red flag, and otherwise the letter of its grade; it
    shows A, or B, exactly when that is the grade of the week; and without
    a week it shows a dash. *)
Theorem gradeDescription_follows_grade entries d :
  In d (computeDerivedWeeks entries) ->
  (gradeDescription (Some d) = redFlagDescription <->
   overallRedFlag d = true)
  /\ (overallRedFlag d = false ->
      gradeDescription (Some d) = gradeString (grade d))
  /\ (gradeDescription (Some d) = lit "A" <-> grade d = A)
  /\ (gradeDescription (Some d) = lit "B" <-> grade d = B)
  /\ (gradeDescription (Some d) = lit "C" <->
      grade d = C /\ overallRedFlag d = false)
  /\ gradeDescription None = lit "-".
Proof.
  intros Hin.
  destruct (In_computeDerivedWeeks _ _ Hin) as [st Hd].
  pose proof (deriveWeek_grade st (entry d)) as Hgrade.
  cbv zeta in Hgrade. rewrite <- Hd in Hgrade.
  unfold gradeDescription. rewrite Hgrade.
  destruct (overallRedFlag d), (13 <=? totalScore d)%Z,
    (8 <=? totalScore d)%Z;
    vm_compute; repeat split; intros; try discriminate; try reflexivity;
    match goal with
    | H : _ /\ _ |- _ => destruct H; discriminate
    end.
Qed.

(** X5. The flag column shows a dash exactly when the derived week has no
    red flag; with a red flag it shows the labels of the flags raised,
    joined, and there is at least one. *)
Theorem flagLabels_dash_iff_no_flag entries d :
  In d (computeDerivedWeeks entries) ->
  (flagLabels d = lit "-" <-> overallRedFlag d = false)
  /\ (overallRedFlag d = true ->
      pushedLabels d <> []
      /\ flagLabels d = join (lit " / ") (pushedLabels d)).
Proof.
  intros Hin.
  destruct (In_computeDerivedWeeks _ _ Hin) as [st Hd].
  pose proof (deriveWeek_overallRedFlag st (entry d)) as Hflag.
  cbv zeta in Hflag. rewrite <- Hd in Hflag. rewrite Hflag.
  unfold flagLabels, pushedLabels.
  destruct (sleep (autoFlags d)), (contacts (autoFlags d)),
    (noIncome (autoFlags d)), (isTrue (manualRedFlag (entry d))),
    (isTrue (paymentRedFlag (entry d)));
    vm_compute; repeat split; intros; try discriminate; try reflexivity.
Qed.

Lemma digitUnits_injective d d' : digitUnits d = digitUnits d' -> d = d'.
Proof.
  revert d'. induction d; intros []; cbn [digitUnits];
    try discriminate; try reflexivity;
    intros [= H]; f_equal; now apply IHd.
Qed.

Lemma indexToString_injective n n' :
  indexToString n = indexToString n' -> n = n'.
Proof.
  intros H. apply digitUnits_injective in H.
  rewrite <- (DecimalNat.Unsigned.of_to n), <- (DecimalNat.Unsigned.of_to n').
  now rewrite H.
Qed.

Lemma mapIndexed_seq {X Y : Type} (f : X -> nat -> Y) index (l : list X) :
  mapIndexed f index l =
  map (fun p => f (fst p) (snd p)) (combine l (seq index (List.length l))).
Proof.
  revert index. induction l as [| x l IH]; intros index; [reflexivity |].
  cbn [mapIndexed List.length seq combine map fst snd]. now rewrite IH.
Qed.

Lemma chartData_names derived index :
  map name (mapIndexed chartPoint index derived) =
  map (fun i => indexToString (i + 1) ++ [36913; 30446]%N)
    (seq index (List.length derived)).
Proof.
  revert index. induction derived as [| d derived IH]; intros index;
    [reflexivity |].
  cbn [mapIndexed List.length seq map name chartPoint]. now rewrite IH.
Qed.

Lemma chartData_scores derived index :
  map score (mapIndexed chartPoint index derived) = map totalScore derived.
Proof.
  revert index. induction derived as [| d derived IH]; intros index;
    [reflexivity |].
  cbn [mapIndexed map score chartPoint]. now rewrite IH.
Qed.

(** X6. The chart has one point for each derived week, in the order of
    the weeks; the point carries the total score of its week, which lies
    on the axis from 0 to 16; its name is the rank of the week, from 1,
    before the two characters of the suffix, and no two points have the
    same name. *)
Theorem chartData_one_point_per_week entries :
  let derived := computeDerivedWeeks entries in
  List.length (chartData derived) = List.length entries
  /\ map score (chartData derived) = map totalScore derived
  /\ Forall (fun p => (0 <= score p <= 16)%Z) (chartData derived)
  /\ map name (chartData derived) =
     map (fun i => indexToString (i + 1) ++ [36913; 30446]%N)
       (seq 0 (List.length entries))
  /\ NoDup (map name (chartData derived)).
Proof.
  intros derived.
  assert (Hlen : List.length derived = List.length entries).
  { unfold derived, computeDerivedWeeks.
    now rewrite mapWeeks_length, sortEntries_length. }
  assert (Hnames := chartData_names derived 0). rewrite Hlen in Hnames.
  assert (Hscores := chartData_scores derived 0).
  fold (chartData derived) in Hnames, Hscores.
  split.
  { rewrite <- (length_map score), Hscores, length_map. exact Hlen. }
  split; [exact Hscores |].
  split.
  { apply Forall_forall. intros p Hp.
    apply (in_map score) in Hp. rewrite Hscores in Hp.
    apply in_map_iff in Hp. destruct Hp as (d & <- & Hd).
    destruct (In_computeDerivedWeeks _ _ Hd) as [st ->].
    apply totalScore_range. }
  split; [exact Hnames |].
  rewrite Hnames. apply Finite.Injective_map_NoDup; [| apply seq_NoDup].
  intros i j Hij. apply app_inv_tail in Hij.
  apply indexToString_injective in Hij. lia.
Qed.

(* ---------------------------------------------------------------- *)
(** ** What the sanitizer returns *)

Lemma toNumericValue_finite v : finiteField (toNumericValue v).
Proof.
  destruct v as [| | b | n | s | items | props]; simpl; auto.
  - destruct (isFinite n) eqn:Hn; simpl; auto.
  - destruct (str_eqb (trim s) []); simpl; auto.
    destruct (isFinite (Number (trim s))) eqn:Hn; simpl; auto.
Qed.

Lemma sanitizeItem_complete item e : sanitizeItem item = Some e -> complete e.
Proof.
  unfold sanitizeItem.
  destruct (negb (Boolean item) || negb (typeofObject item));
    [discriminate |].
  destruct (getProp item key.weekStart); try discriminate.
  intros [= <-]. unfold complete, validEntry.
  cbn [deepWorkH playH realContactsPerWeek sleepScore
       alcoholDeviationPerWeek avgStepsPerDay emergencyFundMonths
       pipelineActionsPerWeek incomeJPY manualRedFlag paymentRedFlag notes].
  split; [repeat constructor; apply toNumericValue_finite |].
  split; [discriminate |]. split; [discriminate |].
  now destruct (getProp item key.notes).
Qed.

Lemma sanitizeLoop_complete items sanitized out :
  sanitizeLoop items sanitized = Some out ->
  Forall complete sanitized -> Forall complete out.
Proof.
  revert sanitized. induction items as [| item rest IH]; intros sanitized;
    cbn [sanitizeLoop].
  - now intros [= <-].
  - destruct (sanitizeItem item) as [e |] eqn:He; [| discriminate].
    intros Hloop Hsan. apply (IH _ Hloop).
    apply Forall_app. split; [assumption |].
    constructor; [| constructor]. eauto using sanitizeItem_complete.
Qed.

Lemma sortEntries_Forall (P : WeekEntry -> Prop) entries :
  Forall P entries -> Forall P (sortEntries entries).
Proof.
  apply Permutation_Forall, Permutation_sym, sortEntries_perm.
Qed.

Lemma complete_normalized e : complete e -> normalizeAbsent e = e.
Proof.
  intros (_ & Hm & Hp & Hn). destruct e as [ws a b c d f g h i j m p n].
  cbn in *. unfold normalizeAbsent. cbn.
  destruct m; [| congruence]. destruct p; [| congruence].
  destruct n; [| congruence]. reflexivity.
Qed.

Lemma complete_valid e : complete e -> validEntry e.
Proof. now intros [H _]. Qed.

Lemma parseStoredEntries_complete raw out :
  parseStoredEntries raw = Some out -> Forall complete out.
Proof.
  destruct raw as [| | b | n | s | items | props]; try discriminate.
  cbn [parseStoredEntries].
  destruct (sanitizeLoop items []) as [sanitized |] eqn:Hloop;
    [| discriminate].
  intros [= <-]. apply sortEntries_Forall.
  eapply sanitizeLoop_complete; [exact Hloop | constructor].
Qed.

(** X7. Every entry the sanitizer returns is complete: each numeric
    field is absent or finite, both flags are booleans and the notes are a
    string, whatever the batch held. *)
Theorem sanitized_entries_are_complete raw out :
  parseStoredEntries raw = Some out -> Forall complete out.
Proof. apply parseStoredEntries_complete. Qed.

(* ---------------------------------------------------------------- *)
(** ** Replacing an entry *)

Lemma replaceAt_length index e (l : list WeekEntry) :
  List.length (replaceAt index e l) = List.length l.
Proof.
  revert index. induction l as [| x l IH]; intros [| i];
    cbn [replaceAt List.length]; auto.
Qed.

Lemma replaceAt_nth index e (l : list WeekEntry) j :
  index < List.length l ->
  nth_error (replaceAt index e l) j =
  if j =? index then Some e else nth_error l j.
Proof.
  revert index j. induction l as [| x l IH]; intros [| i] [| j];
    cbn [replaceAt List.length nth_error]; intros H; try lia;
    try reflexivity.
  change (S j =? S i) with (j =? i). apply IH. lia.
Qed.

Lemma replaceAt_keys index e e' (l : list WeekEntry) :
  nth_error l index = Some e ->
  weekStart e' = weekStart e ->
  map weekStart (replaceAt index e' l) = map weekStart l.
Proof.
  revert index. induction l as [| x l IH]; intros [| i]; cbn [nth_error];
    try discriminate.
  - intros [= ->] Hws. cbn [replaceAt map]. now rewrite Hws.
  - intros H Hws. cbn [replaceAt map]. now rewrite (IH _ H Hws).
Qed.

Lemma replaceAt_Forall (P : WeekEntry -> Prop) index e l :
  P e -> Forall P l -> Forall P (replaceAt index e l).
Proof.
  intros He H. revert index. induction H as [| x l Hx Hl IH]; intros [| i];
    cbn [replaceAt]; auto.
Qed.

(* ---------------------------------------------------------------- *)
(** ** The calendar and the actions of the page *)

Section PageFacts.

Variable LocalTZA : Z.
Variable Date_parse : jsstring -> option Z.
Variable toISOString : Z -> jsstring.

Lemma localDay_startOfDay t :
  localDay LocalTZA (startOfDay LocalTZA t) = localDay LocalTZA t.
Proof.
  clear localeCompare Number Date_parse toISOString.
  unfold startOfDay, localDay, msPerDay.
  Z.to_euclidean_division_equations. lia.
Qed.

Lemma localDay_addDays days t :
  localDay LocalTZA (addDays days t) = (localDay LocalTZA t + days)%Z.
Proof.
  clear localeCompare Number Date_parse toISOString.
  unfold localDay, addDays, msPerDay.
  Z.to_euclidean_division_equations. lia.
Qed.

Lemma localDay_getMonday date :
  localDay LocalTZA (getMonday LocalTZA date) =
  (localDay LocalTZA date - (getDay LocalTZA date + 6) mod 7)%Z.
Proof.
  clear localeCompare Number Date_parse toISOString.
  unfold getMonday. cbv zeta.
  rewrite localDay_startOfDay, localDay_addDays.
  unfold getDay. generalize (localDay LocalTZA date). intros D.
  destruct ((D + 4) mod 7 =? 0)%Z eqn:Hzero.
  - apply Z.eqb_eq in Hzero. Z.to_euclidean_division_equations. lia.
  - apply Z.eqb_neq in Hzero. Z.to_euclidean_division_equations. lia.
Qed.

Lemma getMonday_midnight date :
  getMonday LocalTZA date =
  (localDay LocalTZA (getMonday LocalTZA date) * msPerDay - LocalTZA)%Z.
Proof.
  clear localeCompare Number Date_parse toISOString.
  unfold getMonday at 1. cbv zeta. unfold startOfDay at 1.
  f_equal. f_equal. symmetry.
  unfold getMonday. cbv zeta. apply localDay_startOfDay.
Qed.

(** X14. [getMonday] returns the start of the Monday of the week of its
    argument, in local time: a local midnight, on a Monday, not after the
    argument and less than seven days before it, and the Monday of a
    Monday's midnight is itself.  Seen in UTC, as [toISOString] writes it,
    this instant falls on the Sunday before when the zone is ahead of UTC
    (by at most a day), and on the Monday when the zone is at UTC or
    behind it (by less than a day). *)
Theorem getMonday_is_local_monday_midnight date :
  let monday := getMonday LocalTZA date in
  getDay LocalTZA monday = 1%Z
  /\ startOfDay LocalTZA monday = monday
  /\ (monday <= date < monday + 7 * msPerDay)%Z
  /\ getMonday LocalTZA monday = monday
  /\ ((0 < LocalTZA <= msPerDay)%Z -> utcWeekDay monday = 0%Z)
  /\ ((- msPerDay < LocalTZA <= 0)%Z -> utcWeekDay monday = 1%Z).
Proof.
  clear localeCompare Number Date_parse toISOString.
  cbv zeta.
  pose proof (localDay_getMonday date) as Hday.
  pose proof (getMonday_midnight date) as Hmidnight.
  set (monday := getMonday LocalTZA date) in *.
  assert (Hweek : getDay LocalTZA monday = 1%Z).
  { unfold getDay. rewrite Hday. unfold getDay.
    generalize (localDay LocalTZA date). intros D.
    Z.to_euclidean_division_equations. lia. }
  assert (Hstart : startOfDay LocalTZA monday = monday).
  { unfold startOfDay. now rewrite <- Hmidnight. }
  split; [exact Hweek |]. split; [exact Hstart |].
  split.
  { rewrite Hmidnight, Hday. unfold getDay, localDay, msPerDay.
    Z.to_euclidean_division_equations. lia. }
  split.
  { unfold getMonday at 1. cbv zeta. rewrite Hweek.
    change (1 =? 0)%Z with false. cbv iota.
    replace (addDays (1 - 1) monday) with monday
      by (unfold addDays; lia).
    exact Hstart. }
  unfold utcWeekDay, utcDay. unfold getDay in Hweek.
  clear Hday Hstart.
  set (M := localDay LocalTZA monday) in *.
  clearbody M. clearbody monday. subst monday.
  unfold msPerDay.
  split; intros Hzone; Z.to_euclidean_division_equations; lia.
Qed.

Lemma lastOf_snoc {X : Type} (init : list X) x :
  lastOf (init ++ [x]) = Some x.
Proof.
  unfold lastOf. destruct (init ++ [x]) eqn:Heq.
  - now destruct init.
  - rewrite <- Heq, length_app. cbn [List.length].
    rewrite nth_error_app2 by lia.
    replace (List.length init + 1 - 1 - List.length init) with 0 by lia.
    reflexivity.
Qed.

Lemma lastOf_Some {X : Type} (l : list X) x :
  lastOf l = Some x -> exists init, l = init ++ [x].
Proof.
  destruct l as [| y l]; [discriminate |].
  destruct (@exists_last _ (y :: l)) as (init & z & Heq); [discriminate |].
  rewrite Heq, lastOf_snoc. intros [= <-]. now exists init.
Qed.

Lemma lastOf_None {X : Type} (l : list X) : lastOf l = None -> l = [].
Proof.
  destruct l as [| y l]; [reflexivity |].
  destruct (@exists_last _ (y :: l)) as (init & z & Heq); [discriminate |].
  rewrite Heq, lastOf_snoc. discriminate.
Qed.

Lemma longer_is_nonempty (l l' : list WeekEntry) :
  l <> [] -> List.length l <= List.length l' -> l' <> [].
Proof.
  destruct l; [congruence |]. destruct l'; cbn [List.length]; [lia |].
  discriminate.
Qed.

Lemma handleEntryChange_length index update prev next :
  handleEntryChange index update prev = Some next ->
  List.length next = List.length prev.
Proof.
  unfold handleEntryChange.
  destruct (nth_error prev index); [| discriminate].
  intros [= <-]. now rewrite sortEntries_length, replaceAt_length.
Qed.

Lemma handleAddWeek_length now prev next :
  handleAddWeek LocalTZA Date_parse toISOString now prev = Some next ->
  List.length next = S (List.length prev).
Proof.
  unfold handleAddWeek. cbv zeta.
  destruct (lastOf (sortEntries prev)) as [last |].
  - destruct (nextWeekStart Date_parse toISOString (weekStart last));
      [| discriminate].
    intros [= <-].
    rewrite sortEntries_length, length_app, sortEntries_length.
    cbn [List.length]. lia.
  - intros [= <-].
    rewrite sortEntries_length, length_app, sortEntries_length.
    cbn [List.length]. lia.
Qed.

Lemma handleCopyPrevious_length prev next :
  handleCopyPrevious Date_parse toISOString prev = Some next ->
  List.length prev <= List.length next.
Proof.
  unfold handleCopyPrevious. cbv zeta.
  destruct (lastOf (sortEntries prev)) as [last |].
  - destruct (nextWeekStart Date_parse toISOString (weekStart last));
      [| discriminate].
    intros [= <-].
    rewrite sortEntries_length, length_app, sortEntries_length.
    cbn [List.length]. lia.
  - intros [= <-]. now rewrite sortEntries_length.
Qed.

(** X15. Only the import of an empty array empties the collection: when
    an action leaves the collection empty and it was not, the action is
    an import and the sanitizer returned the empty batch for the file. *)
Theorem only_an_empty_import_empties_collection a prev next :
  act LocalTZA Date_parse toISOString a prev = Some next ->
  prev <> [] ->
  next = [] ->
  exists raw, a = Import (Some raw) /\ parseStoredEntries raw = Some [].
Proof.
  intros Hact Hprev Hnext.
  assert (Hkeep : List.length prev <= List.length next -> False).
  { intros Hlen. now apply (longer_is_nonempty prev next). }
  destruct a as [index v | index k v | index c | index c | index v
                | now | | index | parsed | now confirmed];
    cbn [act] in Hact.
  - apply handleEntryChange_length in Hact. lia.
  - apply handleEntryChange_length in Hact. lia.
  - apply handleEntryChange_length in Hact. lia.
  - apply handleEntryChange_length in Hact. lia.
  - apply handleEntryChange_length in Hact. lia.
  - apply handleAddWeek_length in Hact. lia.
  - apply handleCopyPrevious_length in Hact. lia.
  - injection Hact as Hact.
    exfalso. apply (handleDeleteEntry_nonempty index prev Hprev).
    congruence.
  - injection Hact as Hact. unfold handleImport in Hact.
    destruct parsed as [raw |]; [| congruence].
    destruct (parseStoredEntries raw) as [sanitized |] eqn:Hparse;
      [| congruence].
    exists raw. split; [reflexivity |]. congruence.
  - injection Hact as Hact. unfold handleClearAll in Hact.
    destruct confirmed; [subst; discriminate | congruence].
Qed.

End PageFacts.

Section ConsistentComparator.

(** [localeCompare] is a consistent comparator: exchanging the
    arguments reverses the sign, and "does not sort after" is
    transitive. *)
Hypothesis localeCompare_antisym :
  forall a b, localeCompare b a = CompOpp (localeCompare a b).
Hypothesis localeCompare_trans :
  forall a b c,
    localeCompare a b <> Gt -> localeCompare b c <> Gt ->
    localeCompare a c <> Gt.

Lemma localeCompare_refl a : localeCompare a a = Eq.
Proof.
  pose proof (localeCompare_antisym a a) as H.
  destruct (localeCompare a a); simpl in H; congruence.
Qed.

Lemma notAfter_flip e e' :
  localeCompare (weekStart e') (weekStart e) <> Lt -> notAfter e e'.
Proof.
  unfold notAfter. rewrite (localeCompare_antisym (weekStart e')).
  destruct (localeCompare (weekStart e') (weekStart e)); simpl; congruence.
Qed.

Lemma insertEntry_sorted e sorted :
  StronglySorted notAfter sorted ->
  StronglySorted notAfter (insertEntry e sorted).
Proof.
  induction 1 as [| y rest Hrest IH Hy]; cbn [insertEntry].
  - repeat constructor.
  - assert (Hflip : localeCompare (weekStart y) (weekStart e) <> Lt ->
                    StronglySorted notAfter (e :: y :: rest)).
    { intros Hne. apply notAfter_flip in Hne.
      constructor; [now constructor |].
      constructor; [assumption |].
      rewrite Forall_forall in *. intros z Hz.
      unfold notAfter in *. eauto. }
    destruct (localeCompare (weekStart y) (weekStart e)) eqn:Hcmp;
      try (apply Hflip; discriminate).
    constructor; [assumption |].
    eapply Permutation_Forall;
      [apply Permutation_sym, insertEntry_perm |].
    constructor; [| assumption].
    unfold notAfter. rewrite Hcmp. discriminate.
Qed.

Lemma sortEntries_sorted entries :
  StronglySorted notAfter (sortEntries entries).
Proof.
  induction entries as [| e rest IH]; cbn [sortEntries fold_right].
  - constructor.
  - now apply insertEntry_sorted.
Qed.

(** C4 (amended). The sanitizer rejects exactly when its input is not
    a sequence or some element is not a record with a string
    [weekStart]; otherwise it returns the whole batch, every element
    sanitized and none dropped, sorted ascending by [weekStart] in the
    order of [localeCompare]; that is the lexicographic order of the
    code units whenever the two orders agree on the week starts of the
    batch, as they do on ISO dates. *)
Theorem sanitize_rejects_or_sorts_whole_batch raw :
  (parseStoredEntries raw = None <->
   (forall items, raw <> VArray items)
   \/ (exists items,
         raw = VArray items
         /\ Exists (fun item => ~ weekRecord item) items))
  /\ (forall items out,
        raw = VArray items ->
        parseStoredEntries raw = Some out ->
        Permutation (map Some out) (sanitizedBatch items)
        /\ List.length out = List.length items
        /\ StronglySorted notAfter out
        /\ ((forall e e',
               In e out -> In e' out ->
               localeCompare (weekStart e) (weekStart e') =
               codeUnitCompare (weekStart e) (weekStart e')) ->
            StronglySorted lexNotAfter out)).
Proof.
  split.
  - destruct raw as [| | b | n | s | items | props];
      try (split; [intros _; left; discriminate | reflexivity]).
    cbn [parseStoredEntries].
    destruct (sanitizeLoop items []) as [sanitized |] eqn:Hloop.
    + split; [discriminate |].
      intros [Hnot | (items' & [= <-] & Hbad)].
      * now contradiction (Hnot items).
      * apply (sanitizeLoop_None items []) in Hbad. congruence.
    + split; [| reflexivity].
      intros _. right. exists items. split; [reflexivity |].
      now apply (sanitizeLoop_None items []).
  - intros items out -> Hparse. cbn [parseStoredEntries] in Hparse.
    destruct (sanitizeLoop items []) as [sanitized |] eqn:Hloop;
      [| discriminate].
    injection Hparse as <-.
    apply sanitizeLoop_Some in Hloop. cbn [map app] in Hloop.
    assert (Hperm : Permutation (map Some (sortEntries sanitized))
                      (sanitizedBatch items)).
    { unfold sanitizedBatch. rewrite <- Hloop.
      apply Permutation_map, sortEntries_perm. }
    split; [exact Hperm |].
    split.
    { apply Permutation_length in Hperm.
      unfold sanitizedBatch in Hperm. now rewrite !length_map in Hperm. }
    split; [apply sortEntries_sorted |].
    intros Hagree.
    apply (StronglySorted_weaken notAfter); [| apply sortEntries_sorted].
    intros x y Hx Hy. unfold notAfter, lexNotAfter.
    now rewrite Hagree.
Qed.

(* -------------------------------------------------------------- *)
(** *** Sorted input, stability *)

Lemma sortEntries_of_sorted entries :
  Sorted notAfter entries -> sortEntries entries = entries.
Proof.
  induction 1 as [| e rest Hrest IH Hhd]; [reflexivity |].
  cbn [sortEntries fold_right]. fold (sortEntries rest). rewrite IH.
  destruct Hhd as [| y rest' Hy]; [reflexivity |].
  cbn [insertEntry]. unfold notAfter in Hy.
  rewrite (localeCompare_antisym (weekStart e) (weekStart y)).
  destruct (localeCompare (weekStart e) (weekStart y));
    simpl; congruence.
Qed.

Lemma sortEntries_Sorted entries : Sorted notAfter (sortEntries entries).
Proof. apply StronglySorted_Sorted, sortEntries_sorted. Qed.

Lemma sortEntries_idempotent entries :
  sortEntries (sortEntries entries) = sortEntries entries.
Proof. apply sortEntries_of_sorted, sortEntries_Sorted. Qed.

Lemma sameWeek_not_before k y e :
  sameWeek k y = true -> sameWeek k e = true ->
  localeCompare (weekStart y) (weekStart e) <> Lt.
Proof.
  unfold sameWeek. intros Hy He.
  assert (Hek : localeCompare (weekStart e) k <> Gt)
    by (destruct (localeCompare (weekStart e) k); congruence).
  assert (Hky : localeCompare k (weekStart y) <> Gt).
  { rewrite (localeCompare_antisym (weekStart y) k).
    destruct (localeCompare (weekStart y) k); simpl; congruence. }
  pose proof (localeCompare_trans _ _ _ Hek Hky) as Hey.
  rewrite (localeCompare_antisym (weekStart e) (weekStart y)).
  destruct (localeCompare (weekStart e) (weekStart y));
    simpl; congruence.
Qed.

Lemma insertEntry_stable k e sorted :
  filter (sameWeek k) (insertEntry e sorted) =
  filter (sameWeek k) (e :: sorted).
Proof.
  induction sorted as [| y rest IH]; [reflexivity |].
  cbn [insertEntry].
  destruct (localeCompare (weekStart y) (weekStart e)) eqn:Hcmp;
    try reflexivity.
  cbn [filter] in *. rewrite IH.
  destruct (sameWeek k y) eqn:Hy, (sameWeek k e) eqn:He;
    try reflexivity.
  now contradiction (sameWeek_not_before k y e).
Qed.

Lemma sortEntries_stable k entries :
  filter (sameWeek k) (sortEntries entries) =
  filter (sameWeek k) entries.
Proof.
  induction entries as [| e rest IH]; [reflexivity |].
  cbn [sortEntries fold_right]. fold (sortEntries rest).
  rewrite insertEntry_stable. cbn [filter]. now rewrite IH.
Qed.

(** C6. A derivation is a function of its input alone: its counters
    start from zero in every call, so the same input, and any input that
    sorts to the same sequence, gives the same records, and deriving
    again from the entries of a derivation gives that derivation back.
    The sort is stable: an input that is already sorted comes out in the
    same order, and entries of one week keep the order they had in the
    input. *)
Theorem derive_deterministic_and_stable entries :
  computeDerivedWeeks entries = mapWeeks zeroStreaks (sortEntries entries)
  /\ (forall again,
        sortEntries again = sortEntries entries ->
        computeDerivedWeeks again = computeDerivedWeeks entries)
  /\ computeDerivedWeeks (map entry (computeDerivedWeeks entries)) =
     computeDerivedWeeks entries
  /\ (Sorted notAfter entries ->
      map entry (computeDerivedWeeks entries) = entries)
  /\ (forall k,
        filter (sameWeek k) (map entry (computeDerivedWeeks entries)) =
        filter (sameWeek k) entries).
Proof.
  unfold computeDerivedWeeks.
  split; [reflexivity |].
  split; [now intros again -> |].
  split; [now rewrite mapWeeks_entries, sortEntries_idempotent |].
  split.
  - intros Hsorted. rewrite mapWeeks_entries.
    now apply sortEntries_of_sorted.
  - intros k. rewrite mapWeeks_entries. apply sortEntries_stable.
Qed.

(* -------------------------------------------------------------- *)
(** *** Entries of one week are neighbours once sorted *)

Lemma filter_none (f : WeekEntry -> bool) l :
  Forall (fun x => f x = false) l -> filter f l = [].
Proof.
  induction 1 as [| x l Hx Hl IH]; [reflexivity |].
  cbn [filter]. now rewrite Hx.
Qed.

Lemma sorted_by_week k l :
  StronglySorted notAfter l ->
  l = filter (before k) l ++ filter (sameWeek k) l ++ filter (after k) l.
Proof.
  induction 1 as [| x l Hl IH Hx]; [reflexivity |].
  cbn [filter]. unfold before at 1, sameWeek at 1, after at 1.
  destruct (localeCompare (weekStart x) k) eqn:Hxk.
  - rewrite (filter_none (before k) l).
    + cbn [app]. f_equal.
      rewrite IH at 1. rewrite (filter_none (before k) l); [reflexivity |].
      all: rewrite Forall_forall in *; intros y Hy; unfold before;
        specialize (Hx y Hy); unfold notAfter in Hx;
        assert (Hkx : localeCompare k (weekStart x) <> Gt)
          by (rewrite (localeCompare_antisym (weekStart x) k), Hxk;
              discriminate);
        pose proof (localeCompare_trans _ _ _ Hkx Hx) as Hky;
        rewrite (localeCompare_antisym k (weekStart y));
        destruct (localeCompare k (weekStart y)); simpl; congruence.
    + rewrite Forall_forall in *; intros y Hy; unfold before;
        specialize (Hx y Hy); unfold notAfter in Hx;
        assert (Hkx : localeCompare k (weekStart x) <> Gt)
          by (rewrite (localeCompare_antisym (weekStart x) k), Hxk;
              discriminate);
        pose proof (localeCompare_trans _ _ _ Hkx Hx) as Hky;
        rewrite (localeCompare_antisym k (weekStart y));
        destruct (localeCompare k (weekStart y)); simpl; congruence.
  - cbn [app]. f_equal. exact IH.
  - assert (Hall : Forall (fun y => localeCompare (weekStart y) k = Gt) l).
    { rewrite Forall_forall in *. intros y Hy.
      specialize (Hx y Hy). unfold notAfter in Hx.
      destruct (localeCompare (weekStart y) k) eqn:Hyk; try reflexivity;
        exfalso;
        (assert (Hyk' : localeCompare (weekStart y) k <> Gt)
           by (rewrite Hyk; discriminate));
        pose proof (localeCompare_trans _ _ _ Hx Hyk'); congruence. }
    rewrite (filter_none (before k) l), (filter_none (sameWeek k) l).
    + cbn [app]. f_equal.
      rewrite IH at 1.
      rewrite (filter_none (before k) l), (filter_none (sameWeek k) l);
        [reflexivity | |];
        eapply Forall_impl; try exact Hall;
        intros y Hy; unfold before, sameWeek; now rewrite Hy.
    + eapply Forall_impl; try exact Hall.
      intros y Hy; unfold sameWeek; now rewrite Hy.
    + eapply Forall_impl; try exact Hall.
      intros y Hy; unfold before; now rewrite Hy.
Qed.

Lemma sanitizeLoop_all items sanitized entries :
  map sanitizeItem items = map Some entries ->
  sanitizeLoop items sanitized = Some (sanitized ++ entries).
Proof.
  revert sanitized entries.
  induction items as [| item rest IH]; intros sanitized [| e entries];
    cbn [map sanitizeLoop]; try discriminate.
  - intros _. now rewrite app_nil_r.
  - intros [= -> Hrest]. rewrite (IH _ _ Hrest), <- app_assoc.
    reflexivity.
Qed.

Lemma sanitizeItem_accepts items :
  Forall weekRecord items ->
  exists batch, map sanitizeItem items = map Some batch.
Proof.
  induction 1 as [| item rest (props & ws & -> & Hws) _ (batch & IH)].
  - now exists [].
  - destruct (sanitizeItem_record _ _ Hws) as (e & He & _).
    exists (e :: batch). cbn [map]. now rewrite He, IH.
Qed.

Lemma map_Some_injective (l l' : list WeekEntry) :
  map Some l = map Some l' -> l = l'.
Proof.
  revert l'. induction l as [| x l IH]; intros [| y l'];
    cbn [map]; try discriminate; [reflexivity |].
  intros [= -> Hrest]. now rewrite (IH _ Hrest).
Qed.

(** C10 (amended). Entries with the same [weekStart] are never merged:
    the sort keeps every entry of its input, a derivation has one record
    for each of them, and the sanitizer accepts every batch of week records
    and returns as many entries as the batch has elements, the two among
    them.  Entries that sort together keep the order of the input.  When
    no entry between the two in the input sorts with them, they end up
    next to each other and the counters take them for two consecutive
    weeks: if both have a sleep score, absence read as zero, of at most 4,
    the sleep counter grows by two over them and the second one is flagged
    for sleep, whatever precedes them; likewise for contacts
    ([localeCompare] being a consistent comparator). *)
Theorem duplicate_weeks_count_twice entries l1 e1 l2 e2 l3 :
  entries = l1 ++ e1 :: l2 ++ e2 :: l3 ->
  weekStart e1 = weekStart e2 ->
  Permutation (sortEntries entries) entries
  /\ Permutation (map entry (computeDerivedWeeks entries)) entries
  /\ List.length (computeDerivedWeeks entries) = List.length entries
  /\ filter (sameWeek (weekStart e1)) (sortEntries entries) =
     filter (sameWeek (weekStart e1)) l1
     ++ e1 :: filter (sameWeek (weekStart e1)) l2
     ++ e2 :: filter (sameWeek (weekStart e1)) l3
  /\ (forall items,
        Forall weekRecord items ->
        exists out,
          parseStoredEntries (VArray items) = Some out
          /\ List.length out = List.length items
          /\ Permutation (map Some out) (sanitizedBatch items)
          /\ (sanitizedBatch items = map Some entries ->
              out = sortEntries entries /\ In e1 out /\ In e2 out))
  /\ (Forall (fun x => sameWeek (weekStart e1) x = false) l2 ->
      exists earlier later d1 d2,
        sortEntries entries = earlier ++ e1 :: e2 :: later
        /\ nth_error (computeDerivedWeeks entries) (List.length earlier)
           = Some d1
        /\ nth_error (computeDerivedWeeks entries)
             (S (List.length earlier)) = Some d2
        /\ entry d1 = e1
        /\ entry d2 = e2
        /\ (lowSleepWeek e1 -> lowSleepWeek e2 ->
            sleepStreak (streaksAfter (earlier ++ [e1; e2])) =
            S (S (sleepStreak (streaksAfter earlier)))
            /\ sleep (autoFlags d2) = true)
        /\ (noContactWeek e1 -> noContactWeek e2 ->
            contactStreak (streaksAfter (earlier ++ [e1; e2])) =
            S (S (contactStreak (streaksAfter earlier)))
            /\ contacts (autoFlags d2) = true)).
Proof.
  intros Hentries Hsame.
  set (k := weekStart e1) in *.
  assert (He1 : sameWeek k e1 = true)
    by (unfold sameWeek, k; now rewrite localeCompare_refl).
  assert (He2 : sameWeek k e2 = true)
    by (unfold sameWeek, k; now rewrite <- Hsame, localeCompare_refl).
  assert (Hweek : filter (sameWeek k) (sortEntries entries) =
                  filter (sameWeek k) l1
                  ++ e1 :: filter (sameWeek k) l2
                  ++ e2 :: filter (sameWeek k) l3).
  { rewrite sortEntries_stable, Hentries.
    rewrite filter_app. cbn [filter]. rewrite He1.
    rewrite filter_app. cbn [filter]. now rewrite He2. }
  split; [apply sortEntries_perm |].
  split.
  { unfold computeDerivedWeeks. rewrite mapWeeks_entries.
    apply sortEntries_perm. }
  split.
  { unfold computeDerivedWeeks.
    now rewrite mapWeeks_length, sortEntries_length. }
  split; [exact Hweek |].
  split.
  { intros items Hrecords.
    destruct (sanitizeItem_accepts items Hrecords) as [batch Hbatch].
    exists (sortEntries batch).
    split.
    { cbn [parseStoredEntries].
      now rewrite (sanitizeLoop_all items [] batch Hbatch). }
    split.
    { rewrite sortEntries_length.
      apply (f_equal (@List.length _)) in Hbatch.
      now rewrite !length_map in Hbatch. }
    split.
    { unfold sanitizedBatch. rewrite Hbatch.
      apply Permutation_map, sortEntries_perm. }
    unfold sanitizedBatch. rewrite Hbatch. intros Hsame'.
    apply map_Some_injective in Hsame'. subst batch.
    split; [reflexivity |].
    split; apply (Permutation_in _ (Permutation_sym (sortEntries_perm _)));
      rewrite Hentries; apply in_or_app; right.
    - now left.
    - right. apply in_or_app. right. now left. }
  intros Hbetween.
  pose proof (sorted_by_week k _ (sortEntries_sorted entries)) as Hsplit.
  rewrite Hweek, (filter_none _ l2 Hbetween) in Hsplit.
  cbn [app] in Hsplit.
  set (earlier := filter (before k) (sortEntries entries)
                  ++ filter (sameWeek k) l1).
  set (later := filter (sameWeek k) l3
                ++ filter (after k) (sortEntries entries)).
  assert (Hsorted : sortEntries entries = earlier ++ e1 :: e2 :: later).
  { rewrite Hsplit at 1. unfold earlier, later.
    rewrite <- !app_assoc. cbn [app]. reflexivity. }
  assert (Hsnoc : earlier ++ [e1; e2] = (earlier ++ [e1]) ++ [e2])
    by (now rewrite <- app_assoc).
  exists earlier, later,
    (snd (deriveWeek (streaksAfter earlier) e1)),
    (snd (deriveWeek (streaksAfter (earlier ++ [e1])) e2)).
  split; [exact Hsorted |].
  unfold computeDerivedWeeks. rewrite Hsorted.
  split; [apply mapWeeks_nth |].
  split.
  { replace (earlier ++ e1 :: e2 :: later)
      with ((earlier ++ [e1]) ++ e2 :: later)
      by (now rewrite <- app_assoc).
    replace (S (List.length earlier))
      with (List.length (earlier ++ [e1]))
      by (rewrite length_app; cbn [List.length]; lia).
    apply mapWeeks_nth. }
  split; [apply deriveWeek_entry |].
  split; [apply deriveWeek_entry |].
  rewrite deriveWeek_autoFlags.
  replace (fst (deriveWeek (streaksAfter (earlier ++ [e1])) e2))
    with (streaksAfter (earlier ++ [e1; e2]))
    by (rewrite Hsnoc; unfold streaksAfter; apply streaksFrom_snoc).
  rewrite Hsnoc, (streaksAfter_run ((earlier ++ [e1]) ++ [e2])),
    (streaksAfter_run earlier).
  cbn [sleep contacts sleepStreak contactStreak].
  split; intros Hlow1 Hlow2.
  - rewrite (runEnding_step sleepLow lowSleepWeek _ e2
               sleepLow_lowSleepWeek Hlow2),
      (runEnding_step sleepLow lowSleepWeek _ e1
         sleepLow_lowSleepWeek Hlow1).
    split; reflexivity.
  - rewrite (runEnding_step contactZero noContactWeek _ e2
               contactZero_noContactWeek Hlow2),
      (runEnding_step contactZero noContactWeek _ e1
         contactZero_noContactWeek Hlow1).
    split; reflexivity.
Qed.

(* -------------------------------------------------------------- *)
(** *** Export, import, save and load *)

Lemma sortEntries_keeps_sorted entries :
  StronglySorted notAfter entries -> sortEntries entries = entries.
Proof. intros H. now apply sortEntries_of_sorted, StronglySorted_Sorted. Qed.

Lemma filter_sameWeek_map (f : WeekEntry -> WeekEntry) k entries :
  (forall x, weekStart (f x) = weekStart x) ->
  filter (sameWeek k) (map f entries) = map f (filter (sameWeek k) entries).
Proof.
  intros Hf. induction entries as [| e rest IH]; [reflexivity |].
  cbn [map filter]. rewrite IH.
  replace (sameWeek k (f e)) with (sameWeek k e)
    by (unfold sameWeek; now rewrite Hf).
  now destruct (sameWeek k e).
Qed.

(** C7. Valid entries, written as JSON and parsed back, are accepted by
    the sanitizer, which returns the original sequence, sorted, with absent
    fields normalized: absent numbers stay absent, absent booleans become
    false, absent notes become the empty string; every field that was
    present is unchanged.  Nothing is lost or added: the result holds
    exactly the normalized entries of the input, as many as the input; it
    is ascending by [weekStart] in the order of [localeCompare], entries
    that sort together keep the order of the input, and an input that is
    already sorted comes back in its own order ([localeCompare] being a
    consistent comparator). *)
Theorem sanitize_round_trips_stored_entries entries :
  Forall validEntry entries ->
  exists parsed out,
    jsonRoundTrip entries = Some parsed
    /\ parseStoredEntries parsed = Some out
    /\ out = map normalizeAbsent (sortEntries entries)
    /\ Permutation out (map normalizeAbsent entries)
    /\ StronglySorted notAfter out
    /\ List.length out = List.length entries
    /\ (forall k,
          filter (sameWeek k) out =
          map normalizeAbsent (filter (sameWeek k) entries))
    /\ (StronglySorted notAfter entries -> out = map normalizeAbsent entries).
Proof.
  intros Hvalid. rewrite jsonRoundTrip_array.
  exists (VArray (map viaJSON (map entryValue entries))),
    (map normalizeAbsent (sortEntries entries)).
  split; [reflexivity |].
  split.
  { cbn [parseStoredEntries].
    rewrite (sanitizeLoop_viaJSON entries [] Hvalid). cbn [app].
    now rewrite sortEntries_map. }
  split; [reflexivity |].
  split; [apply Permutation_map, sortEntries_perm |].
  split.
  { rewrite <- sortEntries_map by reflexivity. apply sortEntries_sorted. }
  split; [now rewrite length_map, sortEntries_length |].
  split.
  { intros k. rewrite <- sortEntries_map by reflexivity.
    rewrite sortEntries_stable. now apply filter_sameWeek_map. }
  intros Hsorted. now rewrite sortEntries_keeps_sorted.
Qed.

Lemma roundTrip_of_complete entries :
  Forall complete entries ->
  parseStoredEntries (VArray (map viaJSON (map entryValue entries))) =
  Some (sortEntries entries).
Proof.
  intros Hcomplete. cbn [parseStoredEntries].
  rewrite (sanitizeLoop_viaJSON entries []).
  - cbn [app]. f_equal. f_equal.
    induction Hcomplete as [| e rest He Hrest IH]; [reflexivity |].
    cbn [map]. now rewrite IH, (complete_normalized e He).
  - eapply Forall_impl; [| exact Hcomplete]. apply complete_valid.
Qed.

(** X8. Export followed by import gives the collection back: the
    document exported from a collection of complete entries is accepted
    by the sanitizer, and importing it, whatever the collection held
    then, leaves the sorted collection that was exported. *)
Theorem import_of_export_restores_collection entries :
  Forall complete entries ->
  exists document,
    handleExport entries = Some document
    /\ parseStoredEntries (JSON_parse document) = Some (sortEntries entries)
    /\ forall prev,
         handleImport (Some (JSON_parse document)) prev = sortEntries entries.
Proof.
  intros Hcomplete.
  pose proof (jsonRoundTrip_array (sortEntries entries)) as Hjson.
  unfold jsonRoundTrip in Hjson. unfold handleExport.
  destruct (JSON_stringify (VArray (map entryValue (sortEntries entries))))
    as [document |]; [| discriminate].
  cbn [option_map] in Hjson. injection Hjson as Hparse.
  assert (Hparsed : parseStoredEntries (JSON_parse document) =
                    Some (sortEntries entries)).
  { rewrite Hparse, roundTrip_of_complete, sortEntries_idempotent;
      [reflexivity | now apply sortEntries_Forall]. }
  exists document. split; [reflexivity |]. split; [exact Hparsed |].
  intros prev. unfold handleImport. now rewrite Hparsed.
Qed.

(** X9. What is saved is what is loaded: after the save that follows a
    change, loading returns the sorted collection, for a collection of
    complete entries that is not empty; for the empty collection it
    returns the single default entry. *)
Theorem load_of_save_restores_collection today entries :
  Forall complete entries ->
  loadEntries today (option_map JSON_parse (saveEffect entries)) =
  match entries with
  | [] => [createEmptyEntry today]
  | _ => sortEntries entries
  end.
Proof.
  intros Hcomplete.
  pose proof (jsonRoundTrip_array (sortEntries entries)) as Hjson.
  unfold jsonRoundTrip in Hjson. unfold saveEffect, saveEntries.
  rewrite Hjson. unfold loadEntries.
  rewrite roundTrip_of_complete by now apply sortEntries_Forall.
  rewrite !sortEntries_idempotent.
  destruct entries as [| e rest]; [reflexivity |].
  destruct (sortEntries (e :: rest)) as [| e' rest'] eqn:Hsort.
  - pose proof (sortEntries_length (e :: rest)) as Hlen.
    rewrite Hsort in Hlen. discriminate Hlen.
  - rewrite <- Hsort. reflexivity.
Qed.

(** X10. Loading never gives an empty or unsorted collection: the result
    is sorted, holds complete entries only, and is the sanitized batch
    when there is one and it is not empty, and the single default entry in
    every other case. *)
Theorem loadEntries_sorted_complete_nonempty today stored :
  let loaded := loadEntries today stored in
  loaded <> []
  /\ StronglySorted notAfter loaded
  /\ Forall complete loaded
  /\ (forall parsed out,
        stored = Some parsed ->
        parseStoredEntries parsed = Some out ->
        out <> [] -> loaded = out)
  /\ ((stored = None
       \/ (exists parsed,
             stored = Some parsed
             /\ (parseStoredEntries parsed = None
                 \/ parseStoredEntries parsed = Some []))) ->
      loaded = [createEmptyEntry today]).
Proof.
  assert (Hdefault : StronglySorted notAfter [createEmptyEntry today]
                     /\ Forall complete [createEmptyEntry today]).
  { split; repeat constructor; discriminate. }
  cbv zeta. split; [apply loadEntries_nonempty |].
  unfold loadEntries.
  destruct stored as [parsed |].
  - destruct (parseStoredEntries parsed) as [[| e rest] |] eqn:Hparse.
    + split; [apply Hdefault |]. split; [apply Hdefault |].
      split; [| reflexivity].
      intros parsed' out [= <-] Hout. congruence.
    + split; [apply sortEntries_sorted |].
      apply parseStoredEntries_complete in Hparse as Hcomplete.
      split; [now apply sortEntries_Forall |].
      split.
      * intros parsed' out [= <-] Hout _.
        rewrite Hparse in Hout. injection Hout as <-.
        destruct parsed; try discriminate. cbn [parseStoredEntries] in Hparse.
        destruct (sanitizeLoop items []); [| discriminate].
        injection Hparse as <-. apply sortEntries_idempotent.
      * intros [Hnone | (parsed' & [= <-] & [Hnone | Hnil])]; congruence.
    + split; [apply Hdefault |]. split; [apply Hdefault |].
      split; [| reflexivity].
      intros parsed' out [= <-] Hout. congruence.
  - split; [apply Hdefault |]. split; [apply Hdefault |].
    split; [| reflexivity]. intros parsed out Hstored. discriminate Hstored.
Qed.

(* -------------------------------------------------------------- *)
(** *** Deleting and editing a row *)

Lemma Sorted_strong entries :
  Sorted notAfter entries -> StronglySorted notAfter entries.
Proof.
  apply Sorted_StronglySorted. intros x y z. apply localeCompare_trans.
Qed.

Lemma removeAt_Forall (P : WeekEntry -> Prop) index l :
  Forall P l -> Forall P (removeAt index l).
Proof.
  intros H. revert index. induction H as [| x l Hx Hl IH]; intros [| i];
    cbn [removeAt]; auto.
Qed.

Lemma removeAt_sorted index l :
  StronglySorted notAfter l -> StronglySorted notAfter (removeAt index l).
Proof.
  intros H. revert index. induction H as [| x l Hl IH Hx]; intros [| i];
    cbn [removeAt]; try constructor; auto using removeAt_Forall.
Qed.

Lemma removeAt_outside index (l : list WeekEntry) :
  List.length l <= index -> removeAt index l = l.
Proof.
  revert index. induction l as [| x l IH]; intros [| i];
    cbn [removeAt List.length];
    intros H; try reflexivity; try lia.
  f_equal. apply IH. lia.
Qed.

Lemma removeAt_inside index (l : list WeekEntry) e :
  nth_error l index = Some e ->
  removeAt index l = firstn index l ++ skipn (S index) l
  /\ l = firstn index l ++ e :: skipn (S index) l.
Proof.
  revert index. induction l as [| x l IH]; intros [| i]; cbn [nth_error];
    try discriminate.
  - intros [= ->]. split; reflexivity.
  - intros H. destruct (IH _ H) as [H1 H2].
    cbn [removeAt firstn skipn app]. split; [now rewrite H1 |].
    f_equal. exact H2.
Qed.

(** X11. Deleting a row of a sorted collection removes the entry of that
    row and nothing else, the other entries keeping their order; it does
    nothing when the collection has at most one entry or the index is
    outside the collection; and the collection stays sorted. *)
Theorem handleDeleteEntry_removes_only_that_row index prev :
  StronglySorted notAfter prev ->
  (List.length prev <= 1 -> handleDeleteEntry index prev = prev)
  /\ (List.length prev <= index -> handleDeleteEntry index prev = prev)
  /\ (forall e,
        2 <= List.length prev ->
        nth_error prev index = Some e ->
        prev = firstn index prev ++ e :: skipn (S index) prev
        /\ handleDeleteEntry index prev =
           firstn index prev ++ skipn (S index) prev
        /\ S (List.length (handleDeleteEntry index prev)) =
           List.length prev)
  /\ StronglySorted notAfter (handleDeleteEntry index prev).
Proof.
  intros Hsorted. unfold handleDeleteEntry.
  pose proof (sortEntries_keeps_sorted _ (removeAt_sorted index _ Hsorted))
    as Hkeep.
  destruct (List.length prev <=? 1) eqn:Hlen.
  - apply Nat.leb_le in Hlen.
    repeat split; try reflexivity; try assumption; intros; lia.
  - apply Nat.leb_gt in Hlen. rewrite Hkeep.
    split; [intros; lia |].
    split; [apply removeAt_outside |].
    split; [| now apply removeAt_sorted].
    intros e _ Hnth. destruct (removeAt_inside _ _ _ Hnth) as [Hrem Hprev].
    split; [exact Hprev |]. split; [exact Hrem |].
    rewrite Hrem. rewrite Hprev at 3.
    rewrite !length_app. cbn [List.length]. lia.
Qed.

Lemma sorted_by_keys l l' :
  map weekStart l = map weekStart l' ->
  StronglySorted notAfter l -> StronglySorted notAfter l'.
Proof.
  intros Hkeys Hsorted. revert l' Hkeys.
  induction Hsorted as [| x l Hl IH Hx]; intros [| x' l'] Hkeys;
    try discriminate; [constructor |].
  cbn [map] in Hkeys. injection Hkeys as Hx' Hkeys.
  constructor; [now apply IH |].
  apply Forall_forall. intros y' Hy'.
  apply (in_map weekStart) in Hy'. rewrite <- Hkeys in Hy'.
  apply in_map_iff in Hy'. destruct Hy' as (y & Hy & Hin).
  rewrite Forall_forall in Hx. specialize (Hx y Hin).
  unfold notAfter in *. now rewrite <- Hx', <- Hy.
Qed.

Lemma handleEntryChange_in_place index update prev e :
  nth_error prev index = Some e ->
  StronglySorted notAfter prev ->
  weekStart (setField e update) = weekStart e ->
  handleEntryChange index update prev =
  Some (replaceAt index (setField e update) prev).
Proof.
  intros Hnth Hsorted Hws. unfold handleEntryChange. rewrite Hnth.
  f_equal. apply sortEntries_keeps_sorted.
  apply (sorted_by_keys prev); [| assumption].
  symmetry. now apply replaceAt_keys with (e := e).
Qed.

(** X12. An edit of a row keeps the number of rows and every other
    entry, and leaves the collection sorted.  In a sorted collection, an
    edit that does not change the week start leaves every row where it
    was: the edited entry stays at its index and the other rows are
    untouched. *)
Theorem handleEntryChange_edits_one_row index update prev e :
  nth_error prev index = Some e ->
  exists next,
    handleEntryChange index update prev = Some next
    /\ List.length next = List.length prev
    /\ Permutation next (replaceAt index (setField e update) prev)
    /\ StronglySorted notAfter next
    /\ (StronglySorted notAfter prev ->
        weekStart (setField e update) = weekStart e ->
        next = replaceAt index (setField e update) prev
        /\ nth_error next index = Some (setField e update)
        /\ forall j, j <> index -> nth_error next j = nth_error prev j).
Proof.
  intros Hnth.
  assert (Hrange : index < List.length prev)
    by (apply nth_error_Some; congruence).
  exists (sortEntries (replaceAt index (setField e update) prev)).
  split; [unfold handleEntryChange; now rewrite Hnth |].
  split; [now rewrite sortEntries_length, replaceAt_length |].
  split; [apply sortEntries_perm |].
  split; [apply sortEntries_sorted |].
  intros Hsorted Hws.
  pose proof (handleEntryChange_in_place _ update _ _ Hnth Hsorted Hws)
    as Hplace.
  unfold handleEntryChange in Hplace. rewrite Hnth in Hplace.
  injection Hplace as Hplace. rewrite Hplace.
  split; [reflexivity |].
  split.
  - rewrite replaceAt_nth by assumption. now rewrite Nat.eqb_refl.
  - intros j Hj. rewrite replaceAt_nth by assumption.
    apply Nat.eqb_neq in Hj. now rewrite Hj.
Qed.

Lemma setField_number_complete e key v :
  complete e -> finiteField v -> complete (setField e (NumberValue key v)).
Proof.
  intros (Hvalid & Hm & Hp & Hn) Hv.
  unfold complete. cbn [setField manualRedFlag paymentRedFlag notes].
  split; [| auto].
  unfold validEntry in *.
  repeat match goal with
         | H : Forall _ (_ :: _) |- _ => inversion_clear H
         end.
  destruct key; cbn; repeat constructor; assumption.
Qed.

Lemma fieldOf_setField key v e :
  fieldOf key (setField e (NumberValue key v)) = v.
Proof. now destruct key. Qed.

Lemma fieldOf_setField_other key key' v e :
  key' <> key -> fieldOf key' (setField e (NumberValue key v)) = fieldOf key' e.
Proof. destruct key, key'; try reflexivity; congruence. Qed.

(** X13. Typing in a number box of a row of a sorted collection of
    complete entries stores, in that field of that row, what the numeric
    coercion makes of the text, a finite number or nothing, and nothing
    for a blank text; the entries stay complete and sorted, the row stays
    at its index with its week start, flags and notes, and the other rows
    are untouched.  The field of the box holds the trimmed text converted
    to a number when that is finite, and is absent otherwise; the eight
    other numeric fields of the row are kept. *)
Theorem handleNumberChange_stores_finite_or_nothing index key text prev e :
  nth_error prev index = Some e ->
  StronglySorted notAfter prev ->
  Forall complete prev ->
  let edited := setField e (NumberValue key (toNumericValue (VString text))) in
  exists next,
    handleNumberChange index key text prev = Some next
    /\ nth_error next index = Some edited
    /\ (forall j, j <> index -> nth_error next j = nth_error prev j)
    /\ Forall complete next
    /\ StronglySorted notAfter next
    /\ weekStart edited = weekStart e
    /\ manualRedFlag edited = manualRedFlag e
    /\ paymentRedFlag edited = paymentRedFlag e
    /\ notes edited = notes e
    /\ (trim text = [] -> toNumericValue (VString text) = None)
    /\ fieldOf key edited = toNumericValue (VString text)
    /\ coercedNumber (VString text) (fieldOf key edited)
    /\ (trim text <> [] -> isFinite (Number (trim text)) = true ->
        fieldOf key edited = Some (Number (trim text)))
    /\ (trim text = [] \/ isFinite (Number (trim text)) = false ->
        fieldOf key edited = None)
    /\ (forall key', key' <> key -> fieldOf key' edited = fieldOf key' e).
Proof.
  intros Hnth Hsorted Hcomplete edited.
  assert (Hrange : index < List.length prev)
    by (apply nth_error_Some; congruence).
  assert (Hfield : fieldOf key edited = toNumericValue (VString text))
    by apply fieldOf_setField.
  pose proof (toNumericValue_coerced (VString text)) as Hcoerced.
  exists (replaceAt index edited prev).
  split.
  { unfold handleNumberChange.
    now apply handleEntryChange_in_place. }
  split; [rewrite replaceAt_nth by assumption; now rewrite Nat.eqb_refl |].
  split.
  { intros j Hj. rewrite replaceAt_nth by assumption.
    apply Nat.eqb_neq in Hj. now rewrite Hj. }
  split.
  { apply replaceAt_Forall; [| assumption].
    apply setField_number_complete; [| apply toNumericValue_finite].
    rewrite Forall_forall in Hcomplete. apply Hcomplete.
    eapply nth_error_In; eassumption. }
  split.
  { apply (sorted_by_keys prev); [| assumption].
    symmetry. now apply replaceAt_keys with (e := e). }
  split; [reflexivity |]. split; [reflexivity |].
  split; [reflexivity |]. split; [reflexivity |].
  split.
  { intros Hblank. cbn [toNumericValue]. rewrite Hblank. reflexivity. }
  split; [exact Hfield |].
  rewrite Hfield.
  split; [exact Hcoerced |].
  split; [exact (proj1 Hcoerced) |].
  split; [exact (proj2 Hcoerced) |].
  intros key'. apply fieldOf_setField_other.
Qed.

(* -------------------------------------------------------------- *)
(** *** The order of the input *)

Lemma sorted_perm_unique l1 :
  forall l2,
    StronglySorted notAfter l1 -> StronglySorted notAfter l2 ->
    Permutation l1 l2 ->
    (forall a b,
       In a l1 -> In b l1 ->
       localeCompare (weekStart a) (weekStart b) = Eq -> a = b) ->
    l1 = l2.
Proof.
  induction l1 as [| x l1 IH]; intros l2 H1 H2 Hperm Hsame.
  - apply Permutation_nil in Hperm. now subst.
  - destruct l2 as [| y l2].
    { apply Permutation_sym, Permutation_nil in Hperm. discriminate. }
    inversion_clear H1 as [| ? ? Hs1 Hx].
    inversion_clear H2 as [| ? ? Hs2 Hy].
    assert (Hxy : x = y).
    { assert (Hyin : In y (x :: l1))
        by (eapply Permutation_in;
            [apply Permutation_sym; eassumption | now left]).
      assert (Hxin : In x (y :: l2))
        by (eapply Permutation_in; [eassumption | now left]).
      destruct Hyin as [-> | Hyin]; [reflexivity |].
      destruct Hxin as [-> | Hxin]; [reflexivity |].
      rewrite Forall_forall in Hx, Hy.
      specialize (Hx y Hyin). specialize (Hy x Hxin).
      apply Hsame; [now left | now right |].
      unfold notAfter in *.
      rewrite (localeCompare_antisym (weekStart x) (weekStart y)) in Hy.
      destruct (localeCompare (weekStart x) (weekStart y));
        simpl in *; congruence. }
    subst y. f_equal. apply IH; auto.
    + eapply Permutation_cons_inv; eassumption.
    + intros a b Ha Hb. apply Hsame; now right.
Qed.

(** X16. The order in which the entries are given does not matter when
    entries that sort together are identical, in particular when no two
    entries sort together: two inputs with the same entries then have the
    same sorted sequence and the same derived weeks. *)
Theorem derivation_ignores_input_order entries entries' :
  Permutation entries entries' ->
  (forall a b,
     In a entries -> In b entries ->
     localeCompare (weekStart a) (weekStart b) = Eq -> a = b) ->
  sortEntries entries = sortEntries entries'
  /\ computeDerivedWeeks entries = computeDerivedWeeks entries'.
Proof.
  intros Hperm Hsame.
  assert (Hsort : sortEntries entries = sortEntries entries').
  { apply sorted_perm_unique; try apply sortEntries_sorted.
    - eapply Permutation_trans; [apply sortEntries_perm |].
      eapply Permutation_trans; [exact Hperm |].
      apply Permutation_sym, sortEntries_perm.
    - intros a b Ha Hb. apply Hsame.
      + eapply Permutation_in; [apply sortEntries_perm | exact Ha].
      + eapply Permutation_in; [apply sortEntries_perm | exact Hb]. }
  split; [exact Hsort |].
  unfold computeDerivedWeeks. now rewrite Hsort.
Qed.

(* -------------------------------------------------------------- *)
(** *** The latest week *)

Lemma sorted_last_is_greatest init last :
  StronglySorted notAfter (init ++ [last]) ->
  Forall (fun e => notAfter e last) (init ++ [last]).
Proof.
  intros Hsorted. apply Forall_app. split.
  - induction init as [| x init IH]; [constructor |].
    cbn [app] in Hsorted. inversion_clear Hsorted as [| ? ? Hrest Hx].
    constructor; [| now apply IH].
    rewrite Forall_forall in Hx. apply Hx, in_or_app. right. now left.
  - constructor; [| constructor].
    unfold notAfter. now rewrite localeCompare_refl.
Qed.

(** X20. The summary card is about the week that sorts last: there is no
    latest week exactly when the collection is empty, and the card then
    shows a dash; otherwise the latest week is the derived week of an
    entry of the collection that no entry sorts after, and the card shows
    the label of its grade.  The latest week is the last record of the
    derivation of the collection, the one made from the last entry of the
    sorted collection with the counters left by all the weeks before it,
    and the card shows its emoji label. *)
Theorem latestWeek_is_the_last_sorted_week entries :
  (latestWeek entries = None <-> entries = [])
  /\ (entries = [] -> summaryLabel entries = lit "-")
  /\ (forall d,
        latestWeek entries = Some d ->
        In (entry d) entries
        /\ (forall e, In e entries -> notAfter e (entry d))
        /\ summaryLabel entries = emojiMap (grade d)
        /\ summaryLabel entries = emojiLabel d
        /\ In d (computeDerivedWeeks entries)
        /\ nth_error (computeDerivedWeeks entries) (List.length entries - 1)
           = Some d
        /\ exists earlier,
             sortEntries entries = earlier ++ [entry d]
             /\ computeDerivedWeeks entries =
                mapWeeks zeroStreaks earlier ++ [d]
             /\ d = snd (deriveWeek (streaksAfter earlier) (entry d))).
Proof.
  assert (Hlen : List.length (computeDerivedWeeks entries)
                 = List.length entries).
  { unfold computeDerivedWeeks.
    now rewrite mapWeeks_length, sortEntries_length. }
  split; [| split].
  - unfold latestWeek. split.
    + intros Hnone. apply lastOf_None in Hnone.
      rewrite Hnone in Hlen. destruct entries; [reflexivity | discriminate].
    + now intros ->.
  - now intros ->.
  - intros d Hlatest. unfold summaryLabel. rewrite Hlatest.
    unfold latestWeek in Hlatest.
    destruct (lastOf_Some _ _ Hlatest) as [init Hinit].
    assert (Hin : In d (computeDerivedWeeks entries))
      by (rewrite Hinit; apply in_or_app; right; now left).
    assert (Hentries : sortEntries entries = map entry init ++ [entry d]).
    { unfold computeDerivedWeeks in Hinit.
      rewrite <- (mapWeeks_entries zeroStreaks (sortEntries entries)).
      now rewrite Hinit, map_app. }
    pose proof (sortEntries_sorted entries) as Hsorted.
    rewrite Hentries in Hsorted.
    apply sorted_last_is_greatest in Hsorted. rewrite <- Hentries in Hsorted.
    split.
    { eapply Permutation_in; [apply sortEntries_perm |].
      rewrite Hentries. apply in_or_app. right. now left. }
    split.
    { intros e He. rewrite Forall_forall in Hsorted. apply Hsorted.
      eapply Permutation_in; [apply Permutation_sym, sortEntries_perm |].
      exact He. }
    split.
    { destruct (In_computeDerivedWeeks _ _ Hin) as [st Hd].
      pose proof (deriveWeek_grade st (entry d)) as Hgrade.
      pose proof (deriveWeek_emojiLabel st (entry d)) as Hlabel.
      cbv zeta in Hgrade, Hlabel. rewrite <- Hd in Hgrade, Hlabel.
      rewrite Hlabel, Hgrade. now destruct (overallRedFlag d). }
    split; [reflexivity |].
    split; [exact Hin |].
    split.
    { rewrite <- Hlen, Hinit, length_app. cbn [List.length].
      rewrite nth_error_app2 by lia.
      replace (List.length init + 1 - 1 - List.length init) with 0 by lia.
      reflexivity. }
    exists (map entry init).
    split; [exact Hentries |].
    assert (Hlast : computeDerivedWeeks entries =
                    mapWeeks zeroStreaks (map entry init)
                    ++ [snd (deriveWeek (streaksAfter (map entry init))
                               (entry d))]).
    { unfold computeDerivedWeeks. rewrite Hentries, mapWeeks_app.
      reflexivity. }
    rewrite Hinit in Hlast. apply app_inj_tail in Hlast.
    destruct Hlast as [Hsame Hd].
    split; [rewrite Hinit; f_equal; exact Hsame | exact Hd].
Qed.

(* -------------------------------------------------------------- *)
(** *** Adding a week, and the collections of the page *)

Lemma sorted_snoc init last added :
  StronglySorted notAfter (init ++ [last]) ->
  notAfter last added ->
  StronglySorted notAfter ((init ++ [last]) ++ [added]).
Proof.
  intros Hsorted Hlast.
  induction init as [| x init IH]; cbn [app] in *.
  - repeat constructor. exact Hlast.
  - inversion_clear Hsorted as [| ? ? Hrest Hx].
    constructor; [now apply IH |].
    apply Forall_app. split; [exact Hx |].
    constructor; [| constructor].
    rewrite Forall_forall in Hx.
    assert (Hxlast : notAfter x last)
      by (apply Hx, in_or_app; right; now left).
    unfold notAfter in *. eauto.
Qed.

Section SortedPages.

Variable LocalTZA : Z.
Variable Date_parse : jsstring -> option Z.
Variable toISOString : Z -> jsstring.

Lemma appended_last added prev last :
  lastOf (sortEntries prev) = Some last ->
  notAfter last added ->
  sortEntries (sortEntries prev ++ [added]) = sortEntries prev ++ [added].
Proof.
  intros Hlast Hnot. apply sortEntries_keeps_sorted.
  apply lastOf_Some in Hlast. destruct Hlast as [init Hinit].
  pose proof (sortEntries_sorted prev) as Hsorted.
  rewrite Hinit in *. now apply sorted_snoc.
Qed.

(** X17. Adding a week adds exactly one entry, an empty one, and keeps
    every entry there was, sorted: its week start is the one computed
    from the week start of the last week, or the Monday of the current
    week when there is no week.  The handler fails exactly when that
    computation does, the last week start not being a date.  When the new
    week does not sort before the last one, it comes after all the weeks,
    which keep their order. *)
Theorem handleAddWeek_adds_one_empty_week now prev :
  (handleAddWeek LocalTZA Date_parse toISOString now prev = None <->
   exists last,
     lastOf (sortEntries prev) = Some last
     /\ nextWeekStart Date_parse toISOString (weekStart last) = None)
  /\ (forall next,
        handleAddWeek LocalTZA Date_parse toISOString now prev = Some next ->
        exists added,
          Permutation next (createEmptyEntry added :: prev)
          /\ List.length next = S (List.length prev)
          /\ StronglySorted notAfter next
          /\ (prev = [] ->
              added = formatDate toISOString (getMonday LocalTZA now))
          /\ (forall last,
                lastOf (sortEntries prev) = Some last ->
                nextWeekStart Date_parse toISOString (weekStart last)
                = Some added
                /\ (notAfter last (createEmptyEntry added) ->
                    next = sortEntries prev ++ [createEmptyEntry added]))).
Proof.
  unfold handleAddWeek. cbv zeta.
  destruct (lastOf (sortEntries prev)) as [last |] eqn:Hlast.
  - destruct (nextWeekStart Date_parse toISOString (weekStart last))
      as [added |] eqn:Hnext.
    + split.
      * split; [discriminate |].
        intros (last' & [= <-] & Hnone). congruence.
      * intros next [= <-]. exists added.
        split.
        { eapply Permutation_trans; [apply sortEntries_perm |].
          eapply Permutation_trans;
            [apply Permutation_app_comm |].
          cbn [app]. apply perm_skip, sortEntries_perm. }
        split.
        { rewrite sortEntries_length, length_app, sortEntries_length.
          cbn [List.length]. lia. }
        split; [apply sortEntries_sorted |].
        split.
        { intros ->. discriminate Hlast. }
        intros last' [= <-]. split; [exact Hnext |].
        intros Hnot. now apply appended_last with (last := last).
    + split; [| discriminate].
      split; [| reflexivity]. intros _. now exists last.
  - split.
    + split; [discriminate |].
      intros (last' & Hlast' & _). discriminate Hlast'.
    + intros next [= <-].
      exists (formatDate toISOString (getMonday LocalTZA now)).
      split.
      { eapply Permutation_trans; [apply sortEntries_perm |].
        eapply Permutation_trans;
          [apply Permutation_app_comm |].
        cbn [app]. apply perm_skip, sortEntries_perm. }
      split.
      { rewrite sortEntries_length, length_app, sortEntries_length.
        cbn [List.length]. lia. }
      split; [apply sortEntries_sorted |].
      split; [reflexivity |].
      intros last Hlast'. discriminate Hlast'.
Qed.

Lemma copiedWeek_complete added last :
  complete last -> complete (copiedWeek added last).
Proof.
  intros (Hvalid & _). unfold complete.
  split; [| repeat split; discriminate].
  unfold validEntry in *.
  repeat match goal with
         | H : Forall _ (_ :: _) |- _ => inversion_clear H
         end.
  repeat constructor; assumption.
Qed.



Lemma setField_complete e update :
  complete e ->
  match update with
  | WeekStartValue _ => True
  | NumberValue _ v => finiteField v
  | ManualRedFlagValue v | PaymentRedFlagValue v => v <> None
  | NotesValue v => v <> None
  end ->
  complete (setField e update).
Proof.
  intros Hcomplete Hupdate.
  destruct update as [v | k v | v | v | v];
    [| now apply setField_number_complete | | |];
    destruct Hcomplete as (Hvalid & Hm & Hp & Hn);
    unfold complete; cbn [setField manualRedFlag paymentRedFlag notes];
    (split; [| repeat split; assumption]);
    unfold validEntry in *;
    repeat match goal with
           | H : Forall _ (_ :: _) |- _ => inversion_clear H
           end;
    repeat constructor; assumption.
Qed.

Lemma handleEntryChange_invariant index update prev next :
  handleEntryChange index update prev = Some next ->
  match update with
  | WeekStartValue _ => True
  | NumberValue _ v => finiteField v
  | ManualRedFlagValue v | PaymentRedFlagValue v => v <> None
  | NotesValue v => v <> None
  end ->
  Forall complete prev ->
  StronglySorted notAfter next /\ Forall complete next.
Proof.
  unfold handleEntryChange.
  destruct (nth_error prev index) as [e |] eqn:Hnth; [| discriminate].
  intros [= <-] Hupdate Hcomplete.
  split; [apply sortEntries_sorted |].
  apply sortEntries_Forall, replaceAt_Forall; [| assumption].
  apply setField_complete; [| assumption].
  rewrite Forall_forall in Hcomplete. apply Hcomplete.
  eapply nth_error_In; eassumption.
Qed.

Lemma act_invariant a prev next :
  act LocalTZA Date_parse toISOString a prev = Some next ->
  StronglySorted notAfter prev -> Forall complete prev ->
  StronglySorted notAfter next /\ Forall complete next.
Proof.
  intros Hact Hsorted Hcomplete.
  assert (Hempty : forall ws, complete (createEmptyEntry ws)).
  { intros ws. unfold complete, validEntry.
    repeat split; try discriminate; repeat constructor. }
  destruct a as [index v | index k v | index c | index c | index v
                | now | | index | parsed | now confirmed];
    cbn [act] in Hact.
  - apply (handleEntryChange_invariant _ _ _ _ Hact);
      [exact I | assumption].
  - unfold handleNumberChange in Hact.
    apply (handleEntryChange_invariant _ _ _ _ Hact);
      [apply toNumericValue_finite | assumption].
  - apply (handleEntryChange_invariant _ _ _ _ Hact);
      [discriminate | assumption].
  - apply (handleEntryChange_invariant _ _ _ _ Hact);
      [discriminate | assumption].
  - apply (handleEntryChange_invariant _ _ _ _ Hact);
      [discriminate | assumption].
  - unfold handleAddWeek in Hact. cbv zeta in Hact.
    destruct (lastOf (sortEntries prev)) as [last |].
    + destruct (nextWeekStart Date_parse toISOString (weekStart last));
        [| discriminate].
      injection Hact as <-. split; [apply sortEntries_sorted |].
      apply sortEntries_Forall, Forall_app.
      split; [now apply sortEntries_Forall | now repeat constructor].
    + injection Hact as <-. split; [apply sortEntries_sorted |].
      apply sortEntries_Forall, Forall_app.
      split; [now apply sortEntries_Forall | now repeat constructor].
  - unfold handleCopyPrevious in Hact. cbv zeta in Hact.
    destruct (lastOf (sortEntries prev)) as [last |] eqn:Hlast.
    + destruct (nextWeekStart Date_parse toISOString (weekStart last));
        [| discriminate].
      injection Hact as <-. split; [apply sortEntries_sorted |].
      apply sortEntries_Forall, Forall_app.
      split; [now apply sortEntries_Forall |].
      constructor; [| constructor]. apply copiedWeek_complete.
      apply lastOf_Some in Hlast. destruct Hlast as [init Hinit].
      pose proof (sortEntries_Forall complete prev Hcomplete) as Hall.
      rewrite Hinit in Hall. apply Forall_app in Hall.
      destruct Hall as [_ Hall]. now inversion Hall.
    + injection Hact as <-.
      split; [apply sortEntries_sorted | now apply sortEntries_Forall].
  - injection Hact as <-. unfold handleDeleteEntry.
    destruct (List.length prev <=? 1); [now split |].
    split; [apply sortEntries_sorted |].
    now apply sortEntries_Forall, removeAt_Forall.
  - injection Hact as <-. unfold handleImport.
    destruct parsed as [raw |]; [| now split].
    destruct (parseStoredEntries raw) as [sanitized |] eqn:Hparse;
      [| now split].
    split; [| eapply parseStoredEntries_complete; eassumption].
    destruct raw; try discriminate. cbn [parseStoredEntries] in Hparse.
    destruct (sanitizeLoop items []); [| discriminate].
    injection Hparse as <-. apply sortEntries_sorted.
  - injection Hact as <-. unfold handleClearAll.
    destruct confirmed; [| now split].
    split; [repeat constructor |].
    constructor; [apply Hempty | constructor].
Qed.

(** X19. Every collection the page can hold, from the one loaded at
    start through any sequence of actions, is sorted by week start and
    holds complete entries only.  The rows of the table, which are the
    derived weeks, therefore stand for the entries at the same indices,
    the indices the edit and delete handlers receive. *)
Theorem reachable_collections_are_sorted_and_complete now stored entries :
  Reachable LocalTZA Date_parse toISOString now stored entries ->
  StronglySorted notAfter entries
  /\ Forall complete entries
  /\ sortEntries entries = entries
  /\ map entry (computeDerivedWeeks entries) = entries.
Proof.
  intros Hreach.
  assert (Hinv : StronglySorted notAfter entries /\ Forall complete entries).
  { induction Hreach as [| a prev next Hprev IH Hact].
    - pose proof (loadEntries_nonempty
                    (formatDate toISOString (getMonday LocalTZA now)) stored)
        as _.
      unfold loadEntries.
      assert (Hdefault :
                forall ws,
                  StronglySorted notAfter [createEmptyEntry ws]
                  /\ Forall complete [createEmptyEntry ws]).
      { intros ws. split; repeat constructor; discriminate. }
      destruct stored as [parsed |]; [| apply Hdefault].
      destruct (parseStoredEntries parsed) as [[| e rest] |] eqn:Hparse;
        try apply Hdefault.
      split; [apply sortEntries_sorted |].
      apply sortEntries_Forall.
      eapply parseStoredEntries_complete; eassumption.
    - destruct IH as [Hs Hc]. eapply act_invariant; eassumption. }
  destruct Hinv as [Hsorted Hcomplete].
  pose proof (sortEntries_keeps_sorted _ Hsorted) as Hkeep.
  split; [exact Hsorted |]. split; [exact Hcomplete |].
  split; [exact Hkeep |].
  unfold computeDerivedWeeks. now rewrite mapWeeks_entries.
Qed.

End SortedPages.

End ConsistentComparator.

End Engine.

(* ------------------------------------------------------------------ *)
(** ** Collations by weight are consistent comparators *)

Lemma codeUnitCompare_antisym a b :
  codeUnitCompare b a = CompOpp (codeUnitCompare a b).
Proof.
  revert b. induction a as [| x a IH]; intros [| y b]; simpl;
    try reflexivity.
  rewrite (N.compare_antisym x y).
  destruct (N.compare x y); simpl; auto.
Qed.

Lemma codeUnitCompare_trans a b c :
  codeUnitCompare a b <> Gt -> codeUnitCompare b c <> Gt ->
  codeUnitCompare a c <> Gt.
Proof.
  revert b c.
  induction a as [| x a IH]; intros [| y b] [| z c]; simpl;
    try congruence.
  destruct (N.compare_spec x y) as [-> | Hxy | Hxy]; try congruence.
  - destruct (N.compare y z); try congruence. apply IH.
  - destruct (N.compare_spec y z) as [-> | Hyz | Hyz]; try congruence.
    + intros _ _. apply N.compare_lt_iff in Hxy. rewrite Hxy. discriminate.
    + intros _ _.
      assert (Hxz : (x < z)%N) by lia.
      apply N.compare_lt_iff in Hxz. rewrite Hxz. discriminate.
Qed.

Lemma collateBy_antisym weight a b :
  collateBy weight b a = CompOpp (collateBy weight a b).
Proof. apply codeUnitCompare_antisym. Qed.

Lemma collateBy_trans weight a b c :
  collateBy weight a b <> Gt -> collateBy weight b c <> Gt ->
  collateBy weight a c <> Gt.
Proof. apply codeUnitCompare_trans. Qed.

(* ------------------------------------------------------------------ *)
(** ** The scenarios of the specification *)

(** Eight weeks without income: the first seven are not flagged, the
    eighth is, and its grade is forced to C although its score is 16. *)
Example eighth_week_without_income_is_flagged :
  map (fun d =>
         (noIncome (autoFlags d), overallRedFlag d, grade d, totalScore d))
    (computeDerivedWeeks alphabeticCompare weeksWithoutIncome)
  = repeat (false, false, A, 16%Z) 7 ++ [(true, true, C, 16%Z)].
Proof. vm_compute. reflexivity. Qed.

(** Two low-sleep weeks in a row flag the second one; a low week followed
    by a recovery week flags neither. *)
Example second_low_sleep_week_is_flagged :
  map (fun d => sleep (autoFlags d))
    (computeDerivedWeeks alphabeticCompare
       [fullWeek "2024-01-01" 4 1; fullWeek "2024-01-08" 4 1])
  = [false; true]
  /\ map (fun d => sleep (autoFlags d))
       (computeDerivedWeeks alphabeticCompare
          [fullWeek "2024-01-01" 4 1; fullWeek "2024-01-08" 5 1])
     = [false; false].
Proof. split; vm_compute; reflexivity. Qed.

(** Weeks with nothing filled in fail every condition, an absent metric
    being read as zero: the second of two such weeks is flagged for sleep
    and for contacts, and the eighth for income. *)
Example empty_weeks_are_flagged :
  lowSleepWeek (createEmptyEntry (lit "2024-01-01"))
  /\ noContactWeek (createEmptyEntry (lit "2024-01-01"))
  /\ noIncomeWeek (createEmptyEntry (lit "2024-01-01"))
  /\ map (fun d => (sleep (autoFlags d), contacts (autoFlags d),
                    noIncome (autoFlags d)))
       (computeDerivedWeeks alphabeticCompare
          [createEmptyEntry (lit "2024-01-01");
           createEmptyEntry (lit "2024-01-08")])
     = [(false, false, false); (true, true, false)]
  /\ map (fun d => noIncome (autoFlags d))
       (computeDerivedWeeks alphabeticCompare
          (map (fun start => createEmptyEntry (lit start))
             [ "2024-01-01"; "2024-01-08"; "2024-01-15"; "2024-01-22";
               "2024-01-29"; "2024-02-05"; "2024-02-12"; "2024-02-19" ]%string))
     = repeat false 7 ++ [true].
Proof.
  repeat split; try (vm_compute; discriminate); vm_compute; reflexivity.
Qed.

(** Of two members of a document with one name, the later one is read. *)
Example repeated_member_keeps_the_last :
  getProp
    (JSON_parse
       (JObject [ (key.weekStart, JString (lit "2024-01-01"));
                  (key.notes, JString (lit "a"));
                  (key.weekStart, JString (lit "2024-01-08")) ]))
    key.weekStart
  = VString (lit "2024-01-08")
  /\ option_map (map weekStart)
       (parseStoredEntries alphabeticCompare decimalNumber
          (JSON_parse
             (JArray
                [ JObject [ (key.weekStart, JString (lit "2024-01-01"));
                            (key.weekStart, JString (lit "2024-01-08")) ] ])))
     = Some [lit "2024-01-08"].
Proof. split; vm_compute; reflexivity. Qed.

(** Boundary values score the tier they reach; an absent metric scores as
    zero. *)
Example boundary_values_are_inclusive :
  scoreRules.deepWorkH (Finite 6) = 1%Z
  /\ scoreRules.deepWorkH (Finite 12) = 2%Z
  /\ scoreRules.realContactsPerWeek (Finite (1 # 2)) = 1%Z
  /\ scoreRules.alcoholDeviationPerWeek (valueOrZero None) = 2%Z
  /\ totalScore
       (snd (deriveWeek zeroStreaks (createEmptyEntry (lit "2024-01-01"))))
     = 2%Z.
Proof. repeat split. Qed.

(** The sanitizer rejects a value that is not an array, and an array with
    an element that lacks [weekStart]. *)
Example malformed_batches_are_rejected :
  parseStoredEntries alphabeticCompare decimalNumber (VObject []) = None
  /\ parseStoredEntries alphabeticCompare decimalNumber
       (VArray [bareRecord "2024-01-01"; VObject [(key.notes, VString [])]])
     = None.
Proof. split; reflexivity. Qed.

(* ------------------------------------------------------------------ *)
(** ** The claims that fail as worded *)

(** C4, as worded, fails.  With a collation that sorts letters
    alphabetically, lower case first, as [localeCompare] does, the batch of
    the weeks ["a"] and ["B"] is returned in this order, which is not the
    lexicographic order of the code units (["B"] is 66, ["a"] is 97). *)
Lemma sanitize_order_is_not_lexicographic :
  exists out,
    parseStoredEntries alphabeticCompare decimalNumber
      (VArray [bareRecord "a"; bareRecord "B"]) = Some out
    /\ map weekStart out = [lit "a"; lit "B"]
    /\ ~ StronglySorted lexNotAfter out.
Proof.
  eexists. split; [vm_compute; reflexivity |].
  split; [reflexivity |].
  intros Hsorted. inversion_clear Hsorted as [| ? ? _ Hhd].
  inversion_clear Hhd as [| ? ? Hab _].
  apply Hab. reflexivity.
Qed.

(** C5, as worded, fails.  The string [" false "] is neither ["true"] nor
    ["false"] in any letter case and is truthy, yet the boolean coercion
    returns false for it: the string is trimmed before it is matched. *)
Lemma boolean_string_is_trimmed_before_match :
  toBooleanValue (VString (lit " false ")) = false
  /\ Boolean (VString (lit " false ")) = true
  /\ ~ untrimmedBoolean (VString (lit " false "))
         (toBooleanValue (VString (lit " false "))).
Proof.
  split; [reflexivity |]. split; [reflexivity |].
  intros (_ & _ & H).
  assert (Hfalse : false = true); [| discriminate Hfalse].
  apply H; unfold matchesIgnoringCase; vm_compute; discriminate.
Qed.

(** C10, as worded, fails.  Of three entries of the week of 8 January
    with the sleep scores 3, 8 and 4, in this order, the first and the
    third have the same week start and a sleep score of at most 4 each, and
    no low-sleep run precedes them.  The sort keeps the three in this
    order, the entry between the two brings the sleep counter back to 0,
    and no record is flagged for sleep: the later of the two is not. *)
Lemma entry_between_duplicates_breaks_the_run :
  weekStart lowSleepFirst = weekStart lowSleepSecond
  /\ lowSleepWeek lowSleepFirst
  /\ lowSleepWeek lowSleepSecond
  /\ map entry
       (computeDerivedWeeks alphabeticCompare
          [lowSleepFirst; restedSameWeek; lowSleepSecond])
     = [lowSleepFirst; restedSameWeek; lowSleepSecond]
  /\ map (fun d => sleep (autoFlags d))
       (computeDerivedWeeks alphabeticCompare
          [lowSleepFirst; restedSameWeek; lowSleepSecond])
     = [false; false; false]
  /\ ~ laterDuplicateFlagged alphabeticCompare
        [lowSleepFirst; restedSameWeek; lowSleepSecond].
Proof.
  assert (Hfirst : lowSleepWeek lowSleepFirst) by (vm_compute; discriminate).
  assert (Hsecond : lowSleepWeek lowSleepSecond)
    by (vm_compute; discriminate).
  split; [reflexivity |]. split; [exact Hfirst |]. split; [exact Hsecond |].
  split; [reflexivity |]. split; [reflexivity |].
  intros Hclaim.
  destruct (Hclaim [] lowSleepFirst [restedSameWeek] lowSleepSecond []
              eq_refl eq_refl Hfirst Hsecond) as (d & Hin & _ & Hflag).
  assert (Hnone : Forall (fun d => sleep (autoFlags d) = false)
                    (computeDerivedWeeks alphabeticCompare
                       [lowSleepFirst; restedSameWeek; lowSleepSecond]))
    by (repeat constructor).
  rewrite Forall_forall in Hnone. specialize (Hnone d Hin). congruence.
Qed.

(* ------------------------------------------------------------------ *)
(** ** The theorems at sample inputs *)

Lemma autoFlags_are_run_lengths_witness :
  sortEntries alphabeticCompare [lowSleepFirst; goodWeek; lowSleepSecond] =
  [goodWeek; lowSleepFirst] ++ lowSleepSecond :: []
  /\ exists d,
       nth_error
         (computeDerivedWeeks alphabeticCompare
            [lowSleepFirst; goodWeek; lowSleepSecond]) 2 = Some d
       /\ sleep (autoFlags d) = true
       /\ contacts (autoFlags d) = false.
Proof.
  split; [reflexivity |].
  destruct (autoFlags_are_run_lengths alphabeticCompare
              [lowSleepFirst; goodWeek; lowSleepSecond]
              [goodWeek; lowSleepFirst] lowSleepSecond [] eq_refl)
    as (d & Hnth & _ & Hsleep & _ & _ & _ & Hcontacts & _).
  exists d. split; [exact Hnth |]. split.
  - apply Hsleep.
    exists [goodWeek], [lowSleepFirst; lowSleepSecond].
    split; [reflexivity |]. split; [reflexivity |].
    repeat constructor; vm_compute; discriminate.
  - exact Hcontacts.
Defined.

Lemma grade_and_red_flag_witness :
  In (snd (deriveWeek zeroStreaks goodWeek))
    (computeDerivedWeeks alphabeticCompare [goodWeek])
  /\ (0 <= totalScore (snd (deriveWeek zeroStreaks goodWeek)) <= 16)%Z.
Proof.
  assert (Hin : In (snd (deriveWeek zeroStreaks goodWeek))
                  (computeDerivedWeeks alphabeticCompare [goodWeek]))
    by (left; reflexivity).
  split; [exact Hin |].
  exact (proj1 (grade_and_red_flag alphabeticCompare [goodWeek] _ Hin)).
Defined.

Lemma totalScore_sums_table_rows_witness :
  In (snd (deriveWeek zeroStreaks goodWeek))
    (computeDerivedWeeks alphabeticCompare [goodWeek])
  /\ thresholdRow 12 6 (metric deepWorkH goodWeek)
       (scoreRules.deepWorkH (metric deepWorkH goodWeek)).
Proof.
  assert (Hin : In (snd (deriveWeek zeroStreaks goodWeek))
                  (computeDerivedWeeks alphabeticCompare [goodWeek]))
    by (left; reflexivity).
  split; [exact Hin |].
  exact (proj1 (totalScore_sums_table_rows alphabeticCompare [goodWeek] _ Hin)).
Defined.

Lemma sanitize_rejects_or_sorts_whole_batch_witness :
  parseStoredEntries alphabeticCompare decimalNumber (VNumber (Finite 1))
  = None
  /\ exists out,
       parseStoredEntries alphabeticCompare decimalNumber
         (VArray [bareRecord "b"; looseRecord; bareRecord "A"]) = Some out
       /\ StronglySorted (notAfter alphabeticCompare) out
       /\ List.length out = 3.
Proof.
  split.
  - apply (sanitize_rejects_or_sorts_whole_batch alphabeticCompare
             decimalNumber (collateBy_antisym alphabeticWeight)
             (collateBy_trans alphabeticWeight)).
    left. discriminate.
  - eexists. split; [vm_compute; reflexivity |].
    destruct (sanitize_rejects_or_sorts_whole_batch alphabeticCompare
                decimalNumber (collateBy_antisym alphabeticWeight)
                (collateBy_trans alphabeticWeight)
                (VArray [bareRecord "b"; looseRecord; bareRecord "A"]))
      as [_ Hsome].
    destruct (Hsome _ _ eq_refl eq_refl) as (_ & Hlen & Hsorted & _).
    split; [exact Hsorted | exact Hlen].
Defined.

Lemma fields_are_coerced_never_rejected_witness :
  lookup key.weekStart
    [ (key.weekStart, VString (lit "2024-01-01"));
      (key.deepWorkH, VString (lit " 12 "));
      (key.manualRedFlag, VString (lit " FALSE ")) ]
  = Some (VString (lit "2024-01-01"))
  /\ exists e,
       sanitizeItem decimalNumber
         (VObject
            [ (key.weekStart, VString (lit "2024-01-01"));
              (key.deepWorkH, VString (lit " 12 "));
              (key.manualRedFlag, VString (lit " FALSE ")) ]) = Some e
       /\ weekStart e = lit "2024-01-01".
Proof.
  split; [reflexivity |].
  destruct (fields_are_coerced_never_rejected decimalNumber
              [ (key.weekStart, VString (lit "2024-01-01"));
                (key.deepWorkH, VString (lit " 12 "));
                (key.manualRedFlag, VString (lit " FALSE ")) ]
              (lit "2024-01-01") eq_refl) as (e & He & Hws & _).
  exists e. split; assumption.
Defined.

Lemma derive_deterministic_and_stable_witness :
  Sorted (notAfter alphabeticCompare) [goodWeek; lowSleepFirst]
  /\ map entry (computeDerivedWeeks alphabeticCompare [goodWeek; lowSleepFirst])
     = [goodWeek; lowSleepFirst].
Proof.
  assert (Hsorted : Sorted (notAfter alphabeticCompare)
                      [goodWeek; lowSleepFirst]).
  { constructor; [constructor; constructor |].
    constructor. unfold notAfter. vm_compute. discriminate. }
  split; [exact Hsorted |].
  apply (derive_deterministic_and_stable alphabeticCompare
           (collateBy_antisym alphabeticWeight)
           (collateBy_trans alphabeticWeight)
           [goodWeek; lowSleepFirst]).
  exact Hsorted.
Defined.

Lemma sanitize_round_trips_stored_entries_witness :
  Forall validEntry [lowSleepFirst; createEmptyEntry (lit "2024-01-01")]
  /\ exists parsed out,
       jsonRoundTrip [lowSleepFirst; createEmptyEntry (lit "2024-01-01")]
       = Some parsed
       /\ parseStoredEntries alphabeticCompare decimalNumber parsed = Some out
       /\ out = [createEmptyEntry (lit "2024-01-01"); lowSleepFirst].
Proof.
  assert (Hvalid : Forall validEntry
                     [lowSleepFirst; createEmptyEntry (lit "2024-01-01")]).
  { repeat constructor. }
  split; [exact Hvalid |].
  destruct (sanitize_round_trips_stored_entries alphabeticCompare
              decimalNumber (collateBy_antisym alphabeticWeight)
              (collateBy_trans alphabeticWeight) _ Hvalid)
    as (parsed & out & Hparsed & Hout & Heq & _).
  exists parsed, out. split; [exact Hparsed |]. split; [exact Hout |].
  rewrite Heq. reflexivity.
Defined.

Lemma duplicate_weeks_count_twice_witness :
  [lowSleepFirst; goodWeek; lowSleepSecond] =
  [] ++ lowSleepFirst :: [goodWeek] ++ lowSleepSecond :: []
  /\ weekStart lowSleepFirst = weekStart lowSleepSecond
  /\ Forall weekRecord
       (map entryValue [lowSleepFirst; goodWeek; lowSleepSecond])
  /\ parseStoredEntries alphabeticCompare decimalNumber
       (VArray (map entryValue [lowSleepFirst; goodWeek; lowSleepSecond]))
     = Some [goodWeek; lowSleepFirst; lowSleepSecond]
  /\ Forall
       (fun x => sameWeek alphabeticCompare (weekStart lowSleepFirst) x = false)
       [goodWeek]
  /\ exists d2,
       In d2 (computeDerivedWeeks alphabeticCompare
                [lowSleepFirst; goodWeek; lowSleepSecond])
       /\ entry d2 = lowSleepSecond
       /\ sleep (autoFlags d2) = true.
Proof.
  assert (Hrecords :
            Forall weekRecord
              (map entryValue [lowSleepFirst; goodWeek; lowSleepSecond])).
  { cbn [map].
    constructor; [| constructor; [| constructor; [| constructor]]];
      do 2 eexists; split; reflexivity. }
  assert (Hbetween :
            Forall
              (fun x =>
                 sameWeek alphabeticCompare (weekStart lowSleepFirst) x = false)
              [goodWeek])
    by (repeat constructor).
  assert (Hfirst : lowSleepWeek lowSleepFirst) by (vm_compute; discriminate).
  assert (Hsecond : lowSleepWeek lowSleepSecond)
    by (vm_compute; discriminate).
  destruct (duplicate_weeks_count_twice alphabeticCompare decimalNumber
              (collateBy_antisym alphabeticWeight)
              (collateBy_trans alphabeticWeight)
              [lowSleepFirst; goodWeek; lowSleepSecond]
              [] lowSleepFirst [goodWeek] lowSleepSecond []
              eq_refl eq_refl)
    as (_ & _ & _ & _ & Hsanitize & Hadjacent).
  split; [reflexivity |]. split; [reflexivity |]. split; [exact Hrecords |].
  split.
  { destruct (Hsanitize _ Hrecords) as (out & Hparse & _ & _ & Hout).
    destruct (Hout eq_refl) as (Heq & _).
    rewrite Hparse, Heq. reflexivity. }
  split; [exact Hbetween |].
  destruct (Hadjacent Hbetween)
    as (earlier & later & d1 & d2 & _ & _ & Hnth & _ & He2 & Hflag & _).
  exists d2. split; [eapply nth_error_In; exact Hnth |].
  split; [exact He2 |].
  now apply Hflag.
Defined.

(* ------------------------------------------------------------------ *)
(** ** More scenarios *)

(** In Japan the Monday of the week of Wednesday 3 January 2024 starts
    on 31 December at 15:00 UTC, and the default week start, written in
    UTC, is that Sunday; at UTC it is Monday 1 January. *)
Example default_week_start_is_written_in_utc :
  formatDate isoString (getMonday japanTime aWednesdayNoon)
  = lit "2023-12-31"
  /\ formatDate isoString (getMonday 0 aWednesdayNoon) = lit "2024-01-01".
Proof. split; vm_compute; reflexivity. Qed.

(** The week after the one of 30 December 2024 starts on 6 January 2025;
    a week start that is not a date has no next week. *)
Example nextWeekStart_crosses_the_year :
  nextWeekStart isoDateParse isoString (lit "2024-12-30")
  = Some (lit "2025-01-06")
  /\ nextWeekStart isoDateParse isoString (lit "soon") = None.
Proof. split; vm_compute; reflexivity. Qed.

(** Copying a week with a low sleep score raises the sleep flag on the
    copy. *)
Example copy_of_low_sleep_week_is_flagged :
  option_map
    (fun next =>
       map (fun d => (weekStart (entry d), sleep (autoFlags d)))
         (computeDerivedWeeks alphabeticCompare next))
    (handleCopyPrevious alphabeticCompare isoDateParse isoString
       [goodWeek; lowSleepFirst])
  = Some [ (lit "2024-01-01", false); (lit "2024-01-08", false);
           (lit "2024-01-15", true) ].
Proof. vm_compute. reflexivity. Qed.

(* ------------------------------------------------------------------ *)
(** ** The further theorems at sample inputs *)

Lemma goodWeek_complete : complete goodWeek.
Proof.
  unfold complete, validEntry.
  repeat split; try discriminate; repeat constructor.
Qed.

Lemma lowSleepFirst_complete : complete lowSleepFirst.
Proof.
  unfold complete, validEntry.
  repeat split; try discriminate; repeat constructor.
Qed.

Lemma sample_weeks_sorted :
  StronglySorted (notAfter alphabeticCompare) [goodWeek; lowSleepFirst].
Proof.
  repeat constructor. unfold notAfter. vm_compute. discriminate.
Qed.

Lemma threshold_scores_are_monotone_witness :
  Forall
    (fun field => numLe (metric field lowSleepFirst) (metric field goodWeek))
    [ deepWorkH; playH; realContactsPerWeek; sleepScore; avgStepsPerDay;
      emergencyFundMonths; pipelineActionsPerWeek ]
  /\ metric alcoholDeviationPerWeek lowSleepFirst
     = metric alcoholDeviationPerWeek goodWeek
  /\ (totalScore (snd (deriveWeek zeroStreaks lowSleepFirst))
      <= totalScore (snd (deriveWeek zeroStreaks goodWeek)))%Z.
Proof.
  assert (Hle : Forall
                  (fun field =>
                     numLe (metric field lowSleepFirst) (metric field goodWeek))
                  [ deepWorkH; playH; realContactsPerWeek; sleepScore;
                    avgStepsPerDay; emergencyFundMonths;
                    pipelineActionsPerWeek ]).
  { repeat constructor; vm_compute; discriminate. }
  split; [exact Hle |]. split; [reflexivity |].
  exact (proj1 (threshold_scores_are_monotone zeroStreaks zeroStreaks
                  lowSleepFirst goodWeek Hle eq_refl)).
Defined.

Lemma flags_look_back_over_fixed_windows_witness :
  sortEntries alphabeticCompare [lowSleepFirst; goodWeek; lowSleepSecond] =
  [goodWeek; lowSleepFirst] ++ lowSleepSecond :: []
  /\ exists d,
       nth_error
         (computeDerivedWeeks alphabeticCompare
            [lowSleepFirst; goodWeek; lowSleepSecond]) 2 = Some d
       /\ sleep (autoFlags d) = true.
Proof.
  split; [reflexivity |].
  destruct (flags_look_back_over_fixed_windows alphabeticCompare
              [lowSleepFirst; goodWeek; lowSleepSecond]
              [goodWeek; lowSleepFirst] lowSleepSecond [] eq_refl)
    as (d & Hnth & Hsleep & _).
  exists d. split; [exact Hnth |].
  apply Hsleep. exists [goodWeek], [lowSleepFirst; lowSleepSecond].
  repeat split.
Defined.

Lemma earlier_records_ignore_later_weeks_witness :
  sortEntries alphabeticCompare [lowSleepFirst; goodWeek] =
  sortEntries alphabeticCompare [goodWeek] ++ [lowSleepFirst]
  /\ firstn 1 (computeDerivedWeeks alphabeticCompare [lowSleepFirst; goodWeek])
     = computeDerivedWeeks alphabeticCompare [goodWeek].
Proof.
  split; [reflexivity |].
  exact (earlier_records_ignore_later_weeks alphabeticCompare [goodWeek]
           [lowSleepFirst; goodWeek] [lowSleepFirst] eq_refl).
Defined.

Lemma gradeDescription_follows_grade_witness :
  In (snd (deriveWeek zeroStreaks goodWeek))
    (computeDerivedWeeks alphabeticCompare [goodWeek])
  /\ gradeDescription (Some (snd (deriveWeek zeroStreaks goodWeek))) = lit "A".
Proof.
  assert (Hin : In (snd (deriveWeek zeroStreaks goodWeek))
                  (computeDerivedWeeks alphabeticCompare [goodWeek]))
    by (left; reflexivity).
  split; [exact Hin |].
  destruct (gradeDescription_follows_grade alphabeticCompare [goodWeek] _ Hin)
    as (_ & _ & HA & _).
  apply HA. reflexivity.
Defined.

Lemma flagLabels_dash_iff_no_flag_witness :
  In (snd (deriveWeek zeroStreaks goodWeek))
    (computeDerivedWeeks alphabeticCompare [goodWeek])
  /\ flagLabels (snd (deriveWeek zeroStreaks goodWeek)) = lit "-".
Proof.
  assert (Hin : In (snd (deriveWeek zeroStreaks goodWeek))
                  (computeDerivedWeeks alphabeticCompare [goodWeek]))
    by (left; reflexivity).
  split; [exact Hin |].
  apply (flagLabels_dash_iff_no_flag alphabeticCompare [goodWeek] _ Hin).
  reflexivity.
Defined.

Lemma sanitized_entries_are_complete_witness :
  exists out,
    parseStoredEntries alphabeticCompare decimalNumber (VArray [looseRecord])
    = Some out
    /\ Forall complete out.
Proof.
  eexists. split; [vm_compute; reflexivity |].
  apply (sanitized_entries_are_complete alphabeticCompare decimalNumber
           (VArray [looseRecord])).
  reflexivity.
Defined.

Lemma import_of_export_restores_collection_witness :
  Forall complete [lowSleepFirst; goodWeek]
  /\ exists document,
       handleExport alphabeticCompare [lowSleepFirst; goodWeek]
       = Some document
       /\ handleImport alphabeticCompare decimalNumber
            (Some (JSON_parse document)) []
          = [goodWeek; lowSleepFirst].
Proof.
  assert (Hcomplete : Forall complete [lowSleepFirst; goodWeek])
    by (constructor; [apply lowSleepFirst_complete |];
        constructor; [apply goodWeek_complete | constructor]).
  split; [exact Hcomplete |].
  destruct (import_of_export_restores_collection alphabeticCompare
              decimalNumber (collateBy_antisym alphabeticWeight)
              (collateBy_trans alphabeticWeight) _ Hcomplete)
    as (document & Hexport & _ & Himport).
  exists document. split; [exact Hexport |]. apply Himport.
Defined.

Lemma load_of_save_restores_collection_witness :
  Forall complete [lowSleepFirst; goodWeek]
  /\ loadEntries alphabeticCompare decimalNumber (lit "2024-01-15")
       (option_map JSON_parse
          (saveEffect alphabeticCompare [lowSleepFirst; goodWeek]))
     = [goodWeek; lowSleepFirst].
Proof.
  assert (Hcomplete : Forall complete [lowSleepFirst; goodWeek])
    by (constructor; [apply lowSleepFirst_complete |];
        constructor; [apply goodWeek_complete | constructor]).
  split; [exact Hcomplete |].
  exact (load_of_save_restores_collection alphabeticCompare decimalNumber
           (collateBy_antisym alphabeticWeight)
           (collateBy_trans alphabeticWeight) (lit "2024-01-15") _ Hcomplete).
Defined.

Lemma loadEntries_sorted_complete_nonempty_witness :
  loadEntries alphabeticCompare decimalNumber (lit "2024-01-15")
    (Some (VArray [bareRecord "b"; bareRecord "a"])) <> []
  /\ loadEntries alphabeticCompare decimalNumber (lit "2024-01-15")
       (Some (VArray [])) <> [].
Proof.
  split;
    apply (loadEntries_sorted_complete_nonempty alphabeticCompare
             decimalNumber (collateBy_antisym alphabeticWeight)
             (collateBy_trans alphabeticWeight)).
Defined.

Lemma handleDeleteEntry_removes_only_that_row_witness :
  StronglySorted (notAfter alphabeticCompare) [goodWeek; lowSleepFirst]
  /\ handleDeleteEntry alphabeticCompare 0 [goodWeek; lowSleepFirst]
     = [lowSleepFirst].
Proof.
  split; [exact sample_weeks_sorted |].
  destruct (handleDeleteEntry_removes_only_that_row alphabeticCompare
              (collateBy_antisym alphabeticWeight) 0
              [goodWeek; lowSleepFirst] sample_weeks_sorted)
    as (_ & _ & Hrow & _).
  destruct (Hrow goodWeek (le_n 2) eq_refl) as (_ & Hdelete & _).
  exact Hdelete.
Defined.

Lemma handleEntryChange_edits_one_row_witness :
  nth_error [goodWeek; lowSleepFirst] 0 = Some goodWeek
  /\ exists next,
       handleEntryChange alphabeticCompare 0 (NotesValue (Some (lit "ok")))
         [goodWeek; lowSleepFirst] = Some next
       /\ List.length next = 2.
Proof.
  split; [reflexivity |].
  destruct (handleEntryChange_edits_one_row alphabeticCompare
              (collateBy_antisym alphabeticWeight)
              (collateBy_trans alphabeticWeight)
              0 (NotesValue (Some (lit "ok"))) [goodWeek; lowSleepFirst]
              goodWeek eq_refl)
    as (next & Hnext & Hlen & _).
  exists next. split; [exact Hnext | exact Hlen].
Defined.

Lemma handleNumberChange_stores_finite_or_nothing_witness :
  nth_error [goodWeek; lowSleepFirst] 1 = Some lowSleepFirst
  /\ StronglySorted (notAfter alphabeticCompare) [goodWeek; lowSleepFirst]
  /\ Forall complete [goodWeek; lowSleepFirst]
  /\ exists next,
       handleNumberChange alphabeticCompare decimalNumber 1
         NumberKeys.sleepScore (lit " 7 ") [goodWeek; lowSleepFirst]
       = Some next
       /\ Forall complete next
       /\ next = [goodWeek; fullWeek "2024-01-08" 7 1].
Proof.
  assert (Hcomplete : Forall complete [goodWeek; lowSleepFirst])
    by (constructor; [apply goodWeek_complete |];
        constructor; [apply lowSleepFirst_complete | constructor]).
  split; [reflexivity |]. split; [exact sample_weeks_sorted |].
  split; [exact Hcomplete |].
  destruct (handleNumberChange_stores_finite_or_nothing alphabeticCompare
              decimalNumber (collateBy_antisym alphabeticWeight)
              1 NumberKeys.sleepScore (lit " 7 ") [goodWeek; lowSleepFirst]
              lowSleepFirst eq_refl sample_weeks_sorted Hcomplete)
    as (next & Hnext & _ & _ & Hall & _).
  exists next. split; [exact Hnext |]. split; [exact Hall |].
  assert (Hsome : Some next = Some [goodWeek; fullWeek "2024-01-08" 7 1])
    by (rewrite <- Hnext; reflexivity).
  now injection Hsome.
Defined.

Lemma only_an_empty_import_empties_collection_witness :
  act alphabeticCompare decimalNumber japanTime isoDateParse isoString
    (Import (Some (VArray []))) [goodWeek] = Some []
  /\ [goodWeek] <> []
  /\ exists raw,
       Import (Some (VArray [])) = Import (Some raw)
       /\ parseStoredEntries alphabeticCompare decimalNumber raw = Some [].
Proof.
  split; [reflexivity |].
  assert (Hprev : [goodWeek] <> []) by discriminate.
  split; [exact Hprev |].
  exact (only_an_empty_import_empties_collection alphabeticCompare
           decimalNumber japanTime isoDateParse isoString
           (Import (Some (VArray []))) [goodWeek] [] eq_refl Hprev eq_refl).
Defined.

Lemma derivation_ignores_input_order_witness :
  Permutation [goodWeek; lowSleepFirst] [lowSleepFirst; goodWeek]
  /\ computeDerivedWeeks alphabeticCompare [goodWeek; lowSleepFirst]
     = computeDerivedWeeks alphabeticCompare [lowSleepFirst; goodWeek].
Proof.
  assert (Hperm : Permutation [goodWeek; lowSleepFirst]
                    [lowSleepFirst; goodWeek]) by apply perm_swap.
  split; [exact Hperm |].
  apply (derivation_ignores_input_order alphabeticCompare
           (collateBy_antisym alphabeticWeight)
           (collateBy_trans alphabeticWeight) _ _ Hperm).
  intros a b [<- | [<- | []]] [<- | [<- | []]]; vm_compute;
    intros H; try reflexivity; discriminate H.
Defined.

Lemma handleAddWeek_adds_one_empty_week_witness :
  exists next,
    handleAddWeek alphabeticCompare japanTime isoDateParse isoString
      aWednesdayNoon [goodWeek] = Some next
    /\ List.length next = 2
    /\ StronglySorted (notAfter alphabeticCompare) next.
Proof.
  eexists. split; [vm_compute; reflexivity |].
  destruct (handleAddWeek_adds_one_empty_week alphabeticCompare
              (collateBy_antisym alphabeticWeight)
              (collateBy_trans alphabeticWeight)
              japanTime isoDateParse isoString aWednesdayNoon [goodWeek])
    as [_ Hsome].
  destruct (Hsome _ eq_refl) as (added & _ & Hlen & Hsorted & _).
  split; [exact Hlen | exact Hsorted].
Defined.


Lemma reachable_collections_are_sorted_and_complete_witness :
  Reachable alphabeticCompare decimalNumber japanTime isoDateParse isoString
    aWednesdayNoon (Some (VArray [bareRecord "b"; bareRecord "a"]))
    (loadEntries alphabeticCompare decimalNumber
       (formatDate isoString (getMonday japanTime aWednesdayNoon))
       (Some (VArray [bareRecord "b"; bareRecord "a"])))
  /\ StronglySorted (notAfter alphabeticCompare)
       (loadEntries alphabeticCompare decimalNumber
          (formatDate isoString (getMonday japanTime aWednesdayNoon))
          (Some (VArray [bareRecord "b"; bareRecord "a"]))).
Proof.
  assert (Hreach :
            Reachable alphabeticCompare decimalNumber japanTime isoDateParse
              isoString aWednesdayNoon
              (Some (VArray [bareRecord "b"; bareRecord "a"]))
              (loadEntries alphabeticCompare decimalNumber
                 (formatDate isoString (getMonday japanTime aWednesdayNoon))
                 (Some (VArray [bareRecord "b"; bareRecord "a"]))))
    by apply Reachable_start.
  split; [exact Hreach |].
  exact (proj1 (reachable_collections_are_sorted_and_complete
                  alphabeticCompare decimalNumber
                  (collateBy_antisym alphabeticWeight)
                  (collateBy_trans alphabeticWeight)
                  japanTime isoDateParse isoString aWednesdayNoon _ _ Hreach)).
Defined.

Lemma latestWeek_is_the_last_sorted_week_witness :
  exists d,
    latestWeek alphabeticCompare [lowSleepSecond; goodWeek; lowSleepFirst]
    = Some d
    /\ entry d = lowSleepFirst
    /\ In (entry d) [lowSleepSecond; goodWeek; lowSleepFirst]
    /\ sleep (autoFlags d) = true
    /\ nth_error
         (computeDerivedWeeks alphabeticCompare
            [lowSleepSecond; goodWeek; lowSleepFirst]) 2 = Some d.
Proof.
  eexists. split; [vm_compute; reflexivity |].
  split; [reflexivity |].
  destruct (latestWeek_is_the_last_sorted_week alphabeticCompare
              (collateBy_antisym alphabeticWeight)
              (collateBy_trans alphabeticWeight)
              [lowSleepSecond; goodWeek; lowSleepFirst])
    as (_ & _ & Hlatest).
  destruct (Hlatest _ eq_refl) as (Hentry & _ & _ & _ & _ & Hnth & _).
  split; [exact Hentry |]. split; [reflexivity | exact Hnth].
Defined.
